(** * metagpt/environment.py: the [Environment] class

    A shallow embedding of [Environment] (the registry of roles, the
    subscription table, the message router, the round driver and the idleness
    property), followed by the properties of its public operations.

    Layout:
    - [PyDict]: Python's insertion-ordered [dict] as an association list;
    - [Collaborators], [EventLoop]: what the module imports and only calls
      ([Role], [Message], [asyncio.gather]);
    - the [Py] monad: state passing, the calls made to collaborators, and
      exceptions;
    - the methods of [Environment], in the order of the source;
    - what is observed of a run, the invariants of the two tables, sequences
      of operations, and a concrete team ([Scenario]);
    - lemmas on the dictionaries, the loops and the methods;
    - the theorems, and their instances on the concrete team;
    - further facts on registration, routing, idleness and [run], and their
      instances. *)

From stdpp Require Import base tactics option list relations strings gmap.
From Stdlib Require Import ZArith.

Set Warnings "-clear-no-such-hyp".

(** ** Python dictionaries

    A [dict] keeps its keys unique and iterates in insertion order; assigning
    to a key that is present keeps its position and replaces the value. *)
Module PyDict.
Section dict.
Context {K V : Type} `{EqDecision K}.

Definition t : Type := list (K * V).

Definition empty : t := [].

(** [d.get(k, None)] *)
Fixpoint get (k : K) (d : t) : option V :=
  match d with
  | [] => None
  | (k', v) :: d' => if decide (k' = k) then Some v else get k d'
  end.

(** [d[k] = v] *)
Fixpoint set (k : K) (v : V) (d : t) : t :=
  match d with
  | [] => [(k, v)]
  | (k', v') :: d' =>
      if decide (k' = k) then (k', v) :: d' else (k', v') :: set k v d'
  end.

(** [d.items()], [d.keys()], [d.values()] *)
Definition items (d : t) : list (K * V) := d.
Definition keys (d : t) : list K := d.*1.
Definition values (d : t) : list V := d.*2.

(** The representation invariant of a dictionary: no key occurs twice. *)
Definition wf (d : t) : Prop := NoDup (keys d).

#[global] Instance wf_dec (d : t) : Decision (wf d).
Proof. unfold wf. apply _. Defined.

(** The entries stored under a key. *)
Definition entries (k : K) (d : t) : list (K * V) :=
  filter (λ kv, kv.1 = k) (items d).
End dict.
#[global] Arguments t : clear implicits.
End PyDict.

(** ** Collaborators

    [Role] objects are hashed and compared by identity (they are the keys of
    [consumers]), so a role is represented by its object identity and its
    mutable state lives in a store. *)
Definition Role : Type := positive.

(** Modelled from the spec: the classes [Role] ([metagpt.roles]) and [Message]
    ([metagpt.schema]) are imported, not defined, by [environment.py].  The
    interface is the capability set the environment consumes: a stable
    [profile], the attributes [subscribed_tags] and [is_idle] read from the
    role's current state, [set_env] and [put_message] acting on the role they
    are called on, and on messages the pure [dump] and [is_recipient]. *)
Class Collaborators : Type := {
  Message : Type;
  RoleState : Type;
  dump : Message → string;
  is_recipient : Message → gset string → bool;
  profile : Role → string;
  subscribed_tags : RoleState → gset string;
  role_is_idle : RoleState → bool;
  set_env : RoleState → RoleState;
  put_message : Message → RoleState → RoleState;
}.

Section environment.
Context `{Collaborators}.

(** [class Environment(BaseModel)]: the two fields, both empty by default. *)
Record Environment : Type := mkEnvironment {
  roles : PyDict.t string Role;
  consumers : PyDict.t Role (gset string);
}.

(** The environment together with the state of every role object. *)
Record World : Type := mkWorld {
  env : Environment;
  store : Role → RoleState;
}.

Definition Exn : Type := string.

(** [asyncio.gather] is a library function and is taken as a parameter.
    Awaiting it on a list of futures runs the coroutines of the given roles,
    cooperatively interleaved, until all are done or one raises; all that is
    fixed here is that the await ends in some world, with the exception that
    came out of it, if any. *)
Class EventLoop : Type := {
  gather : list Role → World → World * option Exn;
}.

Context `{EventLoop}.

(** The calls the environment makes to its collaborators, in order. *)
Inductive Event : Type :=
  | CallSetEnv (r : Role)
  | CallPutMessage (r : Role) (m : Message)
  | CallRun (r : Role)
  | AwaitGather (futures : list Role)
  | LogInfo (line : string)
  | LogWarning (line : string).

(** ** The monad of the methods

    A method starts in a world and ends in a world, having returned a value
    or raised, and having made a sequence of calls. *)
Inductive Result (A : Type) : Type :=
  | Returned (a : A)
  | Raised (e : Exn).
#[global] Arguments Returned {A} a.
#[global] Arguments Raised {A} e.

Record Outcome (A : Type) : Type := mkOutcome {
  result : Result A;
  final : World;
  calls : list Event;
}.
#[global] Arguments mkOutcome {A} _ _ _.
#[global] Arguments result {A} _.
#[global] Arguments final {A} _.
#[global] Arguments calls {A} _.

Definition Py (A : Type) : Type := World → Outcome A.

#[global] Instance py_ret : MRet Py := λ A (a : A) w,
  mkOutcome (Returned a) w [].

#[global] Instance py_bind : MBind Py := λ A B (f : A → Py B) (m : Py A) w,
  let o := m w in
  match result o with
  | Returned a =>
      let o' := f a (final o) in
      mkOutcome (result o') (final o') (calls o ++ calls o')
  | Raised e => mkOutcome (Raised e) (final o) (calls o)
  end.

Definition emit (e : Event) : Py unit := λ w, mkOutcome (Returned tt) w [e].
Definition gets {A} (f : World → A) : Py A := λ w, mkOutcome (Returned (f w)) w [].
Definition modify (f : World → World) : Py unit := λ w, mkOutcome (Returned tt) (f w) [].

(** The collaborators' methods: the call is recorded and its effect applied
    to the state of the role it is called on. *)
Definition update_role (r : Role) (f : RoleState → RoleState) (w : World) : World :=
  mkWorld (env w) (λ r', if decide (r' = r) then f (store w r) else store w r').

Definition role_set_env (r : Role) : Py unit :=
  emit (CallSetEnv r);; modify (update_role r set_env).

Definition role_put_message (r : Role) (m : Message) : Py unit :=
  emit (CallPutMessage r m);; modify (update_role r (put_message m)).

(** [role.run()] on an [async def] only creates the coroutine; its body runs
    when the coroutine is awaited. *)
Definition role_run (r : Role) : Py Role :=
  emit (CallRun r);; mret r.

Definition resume (futures : list Role) : Py unit := λ w,
  let '(w', e) := gather futures w in
  mkOutcome (match e with None => Returned tt | Some e => Raised e end) w' [].

(** [await asyncio.gather] on the futures of a round. *)
Definition await_gather (futures : list Role) : Py unit :=
  emit (AwaitGather futures);; resume futures.

Definition logger_info (line : string) : Py unit := emit (LogInfo line).
Definition logger_warning (line : string) : Py unit := emit (LogWarning line).

(** [for x in xs: body(x)] *)
Fixpoint for_each {A} (xs : list A) (body : A → Py unit) : Py unit :=
  match xs with
  | [] => mret tt
  | x :: xs' => body x;; for_each xs' body
  end.

(** ** The methods of [Environment] *)

Definition with_roles (f : PyDict.t string Role → PyDict.t string Role) (w : World) : World :=
  mkWorld (mkEnvironment (f (roles (env w))) (consumers (env w))) (store w).

Definition with_consumers
    (f : PyDict.t Role (gset string) → PyDict.t Role (gset string)) (w : World) : World :=
  mkWorld (mkEnvironment (roles (env w)) (f (consumers (env w)))) (store w).

(** [self.consumers[obj] = tags] *)
Definition set_subscribed_tags (obj : Role) (tags : gset string) : Py unit :=
  modify (with_consumers (PyDict.set obj tags)).

(** [role.set_env(self); self.roles[role.profile] = role;
    self.set_subscribed_tags(role, role.subscribed_tags)] *)
Definition add_role (role : Role) : Py unit :=
  role_set_env role;;
  modify (with_roles (PyDict.set (profile role) role));;
  tags ← gets (λ w, subscribed_tags (store w role));
  set_subscribed_tags role tags.

Definition add_roles (rs : list Role) : Py unit :=
  for_each rs add_role.

(** The loop of [publish_message] over [self.consumers.items()], threading
    the local [found]. *)
Fixpoint publish_loop (message : Message) (items : list (Role * gset string))
    (found : bool) : Py bool :=
  match items with
  | [] => mret found
  | (obj, tags) :: items' =>
      if is_recipient message tags
      then role_put_message obj message;; publish_loop message items' true
      else publish_loop message items' found
  end.

Definition publish_message (message : Message) : Py bool :=
  logger_info ("publish_message: " +:+ dump message);;
  items ← gets (λ w, PyDict.items (consumers (env w)));
  found ← publish_loop message items false;
  (if negb found
   then logger_warning ("Message no recipients: " +:+ dump message)
   else mret tt);;
  mret true.

(** [self.roles] *)
Definition get_roles (w : World) : PyDict.t string Role := roles (env w).

(** [self.roles.get(name, None)] *)
Definition get_role (name : string) (w : World) : option Role :=
  PyDict.get name (roles (env w)).

(** The loop of the [is_idle] property, returning at the first role that is
    not idle. *)
Fixpoint is_idle_loop (st : Role → RoleState) (rs : list Role) : bool :=
  match rs with
  | [] => true
  | r :: rs' => if negb (role_is_idle (st r)) then false else is_idle_loop st rs'
  end.

Definition is_idle (w : World) : bool :=
  is_idle_loop (store w) (PyDict.values (roles (env w))).

(** [get_subscribed_tags] answers the stored set, or the literal [{}], which
    is an empty [dict]. *)
Inductive TagsOrDict : Type :=
  | TagSet (tags : gset string)
  | EmptyDict.

Definition get_subscribed_tags (obj : Role) (w : World) : TagsOrDict :=
  match PyDict.get obj (consumers (env w)) with
  | Some tags => TagSet tags
  | None => EmptyDict
  end.

(** [str(b)] for a [bool], as an f-string prints it. *)
Definition str_bool (b : bool) : string := if b then "True" else "False".

(** The first loop of a round: [future = role.run(); futures.append(future)]. *)
Fixpoint spawn_loop (rs : list Role) (futures : list Role) : Py (list Role) :=
  match rs with
  | [] => mret futures
  | role :: rs' => future ← role_run role; spawn_loop rs' (futures ++ [future])
  end.

(** One iteration of [for _ in range(k)]. *)
Definition round : Py unit :=
  rs ← gets (λ w, PyDict.values (roles (env w)));
  futures ← spawn_loop rs [];
  await_gather futures;;
  idle ← gets is_idle;
  logger_info ("is idle: " +:+ str_bool idle).

Fixpoint rounds (n : nat) : Py unit :=
  match n with
  | O => mret tt
  | S n' => round;; rounds n'
  end.

(** [range(k)] is empty for [k <= 0]. *)
Definition run (k : Z) : Py unit := rounds (Z.to_nat k).

(** A freshly constructed [Environment()]. *)
Definition empty_environment : Environment :=
  mkEnvironment PyDict.empty PyDict.empty.

End environment.

(** ** Reading the calls of a run *)
Section observations.
Context `{!Collaborators}.

(** The messages handed to [put_message] of role [r], in order. *)
Definition delivered_to (r : Role) (e : Event) : option Message :=
  match e with
  | CallPutMessage r' m => if decide (r' = r) then Some m else None
  | _ => None
  end.

Definition deliveries (r : Role) (evs : list Event) : list Message :=
  omap (delivered_to r) evs.

(** The roles whose [run()] was called, in order. *)
Definition started (e : Event) : option Role :=
  match e with
  | CallRun r => Some r
  | _ => None
  end.

Definition invocations (evs : list Event) : list Role := omap started evs.

(** How many times [r] occurs in a list of roles. *)
Definition occurrences (r : Role) (rs : list Role) : nat :=
  length (filter (λ r', r' = r) rs).

(** The subscribers a message is routed to: the keys of the entries of the
    subscription table whose tag set the message accepts, in table order. *)
Definition recipients (m : Message) (items : list (Role * gset string)) : list Role :=
  (filter (λ kv, is_recipient m kv.2) items).*1.

(** The roles whose [put_message] was called, in order. *)
Definition put_target (e : Event) : option Role :=
  match e with
  | CallPutMessage r _ => Some r
  | _ => None
  end.

Definition put_targets (evs : list Event) : list Role := omap put_target evs.

(** The warning of [publish_message] when nobody was found. *)
Definition no_recipients_warning (m : Message) : Event :=
  LogWarning ("Message no recipients: " +:+ dump m).

(** The world [add_role] ends in: [set_env] applied, both tables assigned. *)
Definition after_add_role (role : Role) (w : World) : World :=
  let st := store (update_role role set_env w) in
  mkWorld
    (mkEnvironment
       (PyDict.set (profile role) role (roles (env w)))
       (PyDict.set role (subscribed_tags (st role)) (consumers (env w))))
    st.

End observations.

(** ** Invariants of the two tables *)
Section invariants.
Context `{!Collaborators}.

(** Every entry of the registry is stored under the profile of its role. *)
Definition keyed_by_profile (d : PyDict.t string Role) : Prop :=
  ∀ p r, (p, r) ∈ PyDict.items d → profile r = p.

Record tables_ok (e : Environment) : Prop := mk_tables_ok {
  roles_wf : PyDict.wf (roles e);
  consumers_wf : PyDict.wf (consumers e);
  roles_keyed : keyed_by_profile (roles e);
  roles_subscribed : ∀ r, r ∈ PyDict.values (roles e) → r ∈ PyDict.keys (consumers e);
}.

(** The two halves of the stated invariant of the tables. *)
Definition registered_has_one_entry (e : Environment) : Prop :=
  ∀ r, r ∈ PyDict.values (roles e) → length (PyDict.entries r (consumers e)) = 1.

Definition subscribed_only_if_registered (e : Environment) : Prop :=
  ∀ r, r ∈ PyDict.keys (consumers e) → r ∈ PyDict.values (roles e).

End invariants.

(** ** Sequences of operations *)
Section operations.
Context `{!Collaborators, !EventLoop}.

(** The synchronous operations, and the roles' changes to their own state. *)
Inductive sync_step : World → World → Prop :=
  | step_add_role role w :
      sync_step w (final (add_role role w))
  | step_set_subscribed_tags obj tags w :
      sync_step w (final (set_subscribed_tags obj tags w))
  | step_publish_message m w :
      sync_step w (final (publish_message m w))
  | step_role_state st w :
      sync_step w (mkWorld (env w) st).

(** The awaited coroutines reach the environment through its methods only. *)
Definition through_methods : Prop :=
  ∀ futures w, rtc sync_step w (gather futures w).1.

Inductive step : World → World → Prop :=
  | step_sync w w' : sync_step w w' → step w w'
  | step_add_roles rs w : step w (final (add_roles rs w))
  | step_run k w : step w (final (run k w)).

(** The worlds reached from a fresh environment by the public operations. *)
Definition reachable (w : World) : Prop :=
  ∃ st, rtc step (mkWorld empty_environment st) w.

(** The world a round ends in. *)
Definition after_round (w : World) : World :=
  (gather (PyDict.values (roles (env w))) w).1.

(** A round over the roles [rs] as the description of [run] has it: every
    [run()] is called, then all are awaited, then the idleness is logged. *)
Definition round_calls (rs : list Role) (idle : bool) : list Event :=
  (CallRun <$> rs) ++ [AwaitGather rs; LogInfo ("is idle: " +:+ str_bool idle)].

(** Both tables only grow. *)
Definition grows (w w' : World) : Prop :=
  (∀ name, name ∈ PyDict.keys (get_roles w) → name ∈ PyDict.keys (get_roles w'))
  ∧ (∀ obj, obj ∈ PyDict.keys (consumers (env w)) →
            obj ∈ PyDict.keys (consumers (env w'))).

(** The world after [i] rounds, each one awaited to its end. *)
Definition world_after (i : nat) (w : World) : World := Nat.iter i after_round w.

(** The roles of the registry, in its order: the batch of a round. *)
Definition batch (w : World) : list Role := PyDict.values (roles (env w)).

(** The awaited batch of the round that starts in [w] raises nothing. *)
Definition round_completes (w : World) : Prop := (gather (batch w) w).2 = None.

(** The calls of a round whose await raises: the idleness is not logged. *)
Definition raising_round_calls (rs : list Role) : list Event :=
  (CallRun <$> rs) ++ [AwaitGather rs].

End operations.

(** ** A concrete team *)
Module Scenario.

Record Msg : Type := mkMsg { content : string; send_to : gset string }.

Record St : Type := mkSt {
  st_tags : gset string;
  st_idle : bool;
  st_env : bool;
  st_inbox : list Msg;
}.

(** Roles 1 and 2 share a profile, role 3 has the empty profile; a message
    is for the tag sets that meet its [send_to]. *)
Definition collab : Collaborators := {|
  Message := Msg;
  RoleState := St;
  dump := content;
  is_recipient m tags := bool_decide (send_to m ∩ tags ≠ ∅);
  profile r :=
    match r with
    | 1%positive | 2%positive => "Alice"
    | 3%positive => ""
    | 4%positive => "Bob"
    | _ => "Carol"
    end;
  subscribed_tags := st_tags;
  role_is_idle := st_idle;
  set_env s := mkSt (st_tags s) (st_idle s) true (st_inbox s);
  put_message m s := mkSt (st_tags s) false (st_env s) (st_inbox s ++ [m]);
|}.

#[local] Existing Instance collab.

(** An awaited role empties its inbox and becomes idle. *)
Definition work (s : St) : St := mkSt (st_tags s) true (st_env s) [].

Definition loop : EventLoop := {|
  gather futures w :=
    (mkWorld (env w)
       (λ r, if decide (r ∈ futures) then work (store w r) else store w r),
     None)
|}.

Definition st0 (r : Role) : St :=
  mkSt (if decide (r = 1%positive) then {["a"]} else {["b"]}) false false [].

Definition fresh : World := mkWorld empty_environment st0.

Definition hello : Msg := mkMsg "hi" {["b"]}.

(** An await in which role 4 gets registered. *)
Definition recruiting_loop : EventLoop := {|
  gather futures w := (final (add_role 4%positive w), None)
|}.

(** An await that lets the roles work, and raises from the second round on
    (when the awaited roles are idle already). *)
Definition tiring_loop : EventLoop := {|
  gather futures w :=
    (mkWorld (env w)
       (λ r, if decide (r ∈ futures) then work (store w r) else store w r),
     if forallb (λ r, st_idle (store w r)) futures then Some "tired" else None)
|}.

Definition team : World := final (add_roles [2; 4; 5]%positive fresh).
Definition superseded : World := final (add_role 2%positive (final (add_role 1%positive fresh))).

End Scenario.

(** ** Facts on dictionaries *)
Module PyDictFacts.
Import PyDict.
Section dict.
Context {K V : Type} `{EqDecision K}.
Implicit Types (k : K) (v : V) (d : t K V).

Lemma wf_empty : wf (@empty K V).
Proof. constructor. Qed.

Lemma get_set_eq k v d : get k (set k v d) = Some v.
Proof.
  induction d as [|[k' v'] d IH]; simpl.
  - by rewrite decide_True.
  - destruct (decide (k' = k)) as [->|Hne]; simpl.
    + by rewrite decide_True.
    + by rewrite decide_False.
Qed.

Lemma get_set_ne k k' v d : k ≠ k' → get k' (set k v d) = get k' d.
Proof.
  intros Hne. induction d as [|[k0 v0] d IH]; simpl.
  - by rewrite decide_False.
  - destruct (decide (k0 = k)) as [->|Hne0]; simpl.
    + by rewrite !decide_False.
    + by rewrite IH.
Qed.

Lemma get_None k d : get k d = None ↔ k ∉ keys d.
Proof.
  unfold keys. induction d as [|[k' v'] d IH]; csimpl.
  - split; [intros _; apply not_elem_of_nil | done].
  - rewrite not_elem_of_cons. destruct (decide (k' = k)) as [->|Hne].
    + split; [done | by intros [? _]].
    + rewrite IH. naive_solver.
Qed.

Lemma get_Some_elem k v d : get k d = Some v → (k, v) ∈ items d.
Proof.
  unfold items. induction d as [|[k' v'] d IH]; simpl; [done|].
  destruct (decide (k' = k)) as [->|Hne].
  - intros [= ->]. apply list_elem_of_here.
  - intros Hget. apply list_elem_of_further. auto.
Qed.

Lemma elem_keys k v d : (k, v) ∈ items d → k ∈ keys d.
Proof.
  unfold items, keys. intros Hin.
  apply list_elem_of_fmap. by exists (k, v).
Qed.

Lemma elem_values k v d : (k, v) ∈ items d → v ∈ values d.
Proof.
  unfold items, values. intros Hin.
  apply list_elem_of_fmap. by exists (k, v).
Qed.

Lemma elem_get k v d : wf d → (k, v) ∈ items d → get k d = Some v.
Proof.
  unfold wf, keys, items. induction d as [|[k' v'] d IH]; simpl.
  - intros _ Hin. by apply not_elem_of_nil in Hin.
  - rewrite NoDup_cons. intros [Hk' Hnd] Hin.
    apply elem_of_cons in Hin as [[= <- <-]|Hin].
    + by rewrite decide_True.
    + rewrite decide_False; [by apply IH|].
      intros ->. apply Hk'. by apply (elem_keys _ v).
Qed.

Lemma keys_set k v d :
  keys (set k v d) = if decide (k ∈ keys d) then keys d else keys d ++ [k].
Proof.
  unfold keys. induction d as [|[k' v'] d IH]; csimpl.
  - done.
  - destruct (decide (k' = k)) as [->|Hne]; csimpl.
    + by rewrite decide_True by apply list_elem_of_here.
    + rewrite IH. repeat case_decide; try done.
      * exfalso. eauto using list_elem_of_further.
      * exfalso. set_solver.
Qed.

Lemma elem_keys_set k k' v d : k' ∈ keys (set k v d) ↔ k' = k ∨ k' ∈ keys d.
Proof.
  rewrite keys_set. case_decide as Hin.
  - naive_solver.
  - rewrite elem_of_app, list_elem_of_singleton. naive_solver.
Qed.

Lemma wf_set k v d : wf d → wf (set k v d).
Proof.
  unfold wf. rewrite keys_set. case_decide as Hin; [done|].
  intros Hnd. apply NoDup_app. split_and!; [done| |apply NoDup_singleton].
  intros x Hx ->%list_elem_of_singleton. done.
Qed.

Lemma get_Some_key k d : k ∈ keys d → ∃ v, get k d = Some v.
Proof.
  intros Hin. destruct (get k d) as [v|] eqn:Hget; [by exists v|].
  by apply get_None in Hget.
Qed.

Lemma elem_items_set k v kv d :
  kv ∈ items (set k v d) → kv = (k, v) ∨ kv ∈ items d.
Proof.
  unfold items. induction d as [|[k0 v0] d IH]; simpl.
  - rewrite list_elem_of_singleton. auto.
  - destruct (decide (k0 = k)) as [->|Hne];
      rewrite !elem_of_cons; naive_solver.
Qed.

Lemma elem_values_set k v v' d :
  v' ∈ values (set k v d) → v' = v ∨ v' ∈ values d.
Proof.
  unfold values. induction d as [|[k0 v0] d IH]; simpl.
  - rewrite list_elem_of_singleton. auto.
  - destruct (decide (k0 = k)) as [->|Hne]; simpl;
      rewrite !elem_of_cons; naive_solver.
Qed.

Lemma values_set_new k v d : k ∉ keys d → values (set k v d) = values d ++ [v].
Proof.
  unfold keys, values. induction d as [|[k0 v0] d IH]; csimpl; [done|].
  rewrite not_elem_of_cons. intros [Hne Hnin].
  rewrite decide_False by done. csimpl. by rewrite IH.
Qed.

Lemma entries_notin k d : k ∉ keys d → entries k d = [].
Proof.
  unfold entries, keys, items. induction d as [|[k' v'] d IH]; [done|].
  rewrite fmap_cons, not_elem_of_cons. intros [Hne Hnin].
  rewrite filter_cons_False by (simpl; intros ->; by apply Hne). auto.
Qed.

(** In a well-formed dictionary a key that is present has one entry. *)
Lemma entries_get k v d : wf d → get k d = Some v → entries k d = [(k, v)].
Proof.
  unfold wf, keys. induction d as [|[k' v'] d IH]; [done|].
  rewrite fmap_cons, NoDup_cons. intros [Hk' Hnd]. unfold entries, items. simpl get.
  destruct (decide (k' = k)) as [->|Hne].
  - intros [= ->]. rewrite filter_cons_True by done.
    f_equal. by apply entries_notin.
  - intros Hget. rewrite filter_cons_False by done. by apply IH.
Qed.
End dict.
End PyDictFacts.

(** ** Facts on the observations *)
Section observation_facts.
Context `{!Collaborators}.

Lemma deliveries_cons r e evs :
  deliveries r (e :: evs) =
    match delivered_to r e with
    | Some m => m :: deliveries r evs
    | None => deliveries r evs
    end.
Proof. done. Qed.

Lemma deliveries_app r evs1 evs2 :
  deliveries r (evs1 ++ evs2) = deliveries r evs1 ++ deliveries r evs2.
Proof. apply omap_app. Qed.

Lemma invocations_app evs1 evs2 :
  invocations (evs1 ++ evs2) = invocations evs1 ++ invocations evs2.
Proof. apply omap_app. Qed.

Lemma occurrences_app r rs1 rs2 :
  occurrences r (rs1 ++ rs2) = occurrences r rs1 + occurrences r rs2.
Proof. unfold occurrences. by rewrite filter_app, length_app. Qed.

Lemma recipients_cons m r tags items :
  recipients m ((r, tags) :: items) =
    if is_recipient m tags then r :: recipients m items else recipients m items.
Proof.
  unfold recipients. rewrite filter_cons. simpl.
  destruct (is_recipient m tags); by simpl.
Qed.

Lemma recipients_nil_iff m items :
  recipients m items = [] ↔ existsb (λ kv, is_recipient m kv.2) items = false.
Proof.
  induction items as [|[r tags] items IH]; [done|].
  rewrite recipients_cons. simpl. destruct (is_recipient m tags); simpl; [done|].
  apply IH.
Qed.

(** What role [r] receives from the [put_message] calls on [recipients]. *)
Lemma deliveries_recipients r m items :
  PyDict.wf items →
  deliveries r ((λ r', CallPutMessage r' m) <$> recipients m items) =
    match PyDict.get r items with
    | Some tags => if is_recipient m tags then [m] else []
    | None => []
    end.
Proof.
  unfold PyDict.wf, PyDict.keys.
  induction items as [|[r' tags] items IH]; [done|].
  rewrite fmap_cons, NoDup_cons. simpl fst. intros [Hr' Hnd].
  rewrite recipients_cons. simpl PyDict.get.
  destruct (decide (r' = r)) as [->|Hne].
  - apply PyDictFacts.get_None in Hr'. specialize (IH Hnd). rewrite Hr' in IH.
    destruct (is_recipient m tags); [|done].
    rewrite fmap_cons, deliveries_cons, IH. simpl.
    by rewrite decide_True.
  - rewrite <- (IH Hnd). destruct (is_recipient m tags); [|done].
    rewrite fmap_cons, deliveries_cons. simpl. by rewrite decide_False.
Qed.

End observation_facts.

(** ** The methods, one by one *)

Ltac py_unfold :=
  unfold role_put_message, role_set_env, role_run, logger_info, logger_warning,
    emit, gets, modify, mbind, mret, py_bind, py_ret.

Section method_facts.
Context `{!Collaborators}.

Lemma bind_returned {A B} (m : Py A) (f : A → Py B) w a :
  result (m w) = Returned a →
  (m ≫= f) w =
    mkOutcome (result (f a (final (m w)))) (final (f a (final (m w))))
      (calls (m w) ++ calls (f a (final (m w)))).
Proof. unfold mbind, py_bind. by intros ->. Qed.

Lemma bind_raised {A B} (m : Py A) (f : A → Py B) w e :
  result (m w) = Raised e →
  (m ≫= f) w = mkOutcome (Raised e) (final (m w)) (calls (m w)).
Proof. unfold mbind, py_bind. by intros ->. Qed.

Lemma set_subscribed_tags_spec obj tags w :
  set_subscribed_tags obj tags w =
    mkOutcome (Returned tt) (with_consumers (PyDict.set obj tags) w) [].
Proof. done. Qed.

Lemma add_role_spec role w :
  add_role role w = mkOutcome (Returned tt) (after_add_role role w) [CallSetEnv role].
Proof. done. Qed.

Lemma publish_loop_spec m items found w :
  result (publish_loop m items found w) =
    Returned (found || existsb (λ kv, is_recipient m kv.2) items)
  ∧ calls (publish_loop m items found w) =
      (λ r, CallPutMessage r m) <$> recipients m items
  ∧ env (final (publish_loop m items found w)) = env w.
Proof.
  revert found w. induction items as [|[r tags] items IH]; intros found w.
  - simpl. by rewrite orb_false_r.
  - rewrite recipients_cons. simpl. destruct (is_recipient m tags); simpl.
    + destruct (IH true (update_role r (put_message m) w)) as (Hres & Hcalls & Henv).
      py_unfold. simpl. rewrite Hres, Hcalls, Henv, orb_true_r. done.
    + apply IH.
Qed.

(** The store after the loop: each subscriber whose tag set the message
    accepts has had [put_message] applied once, the others are untouched. *)
Lemma publish_loop_store m items found w r :
  PyDict.wf items →
  store (final (publish_loop m items found w)) r =
    match PyDict.get r items with
    | Some tags =>
        if is_recipient m tags then put_message m (store w r) else store w r
    | None => store w r
    end.
Proof.
  unfold PyDict.wf, PyDict.keys. revert found w.
  induction items as [|[r' tags] items IH]; intros found w; [done|].
  rewrite fmap_cons, NoDup_cons. simpl fst. intros [Hr' Hnd].
  simpl. destruct (decide (r' = r)) as [->|Hne].
  - apply PyDictFacts.get_None in Hr'.
    destruct (is_recipient m tags).
    + py_unfold. simpl. rewrite (IH _ _ Hnd), Hr'. simpl.
      by rewrite decide_True.
    + by rewrite (IH _ _ Hnd), Hr'.
  - destruct (is_recipient m tags).
    + py_unfold. simpl. rewrite (IH _ _ Hnd). simpl.
      by rewrite decide_False by done.
    + by rewrite (IH _ _ Hnd).
Qed.

Lemma publish_message_result m w :
  result (publish_message m w) = Returned true.
Proof.
  unfold publish_message. py_unfold. simpl.
  destruct (publish_loop_spec m (PyDict.items (consumers (env w))) false w)
    as (-> & _ & _).
  simpl. by destruct (negb _).
Qed.

Lemma publish_message_calls m w :
  calls (publish_message m w) =
    LogInfo ("publish_message: " +:+ dump m)
    :: ((λ r, CallPutMessage r m) <$> recipients m (PyDict.items (consumers (env w))))
    ++ (if existsb (λ kv, is_recipient m kv.2) (PyDict.items (consumers (env w)))
        then [] else [no_recipients_warning m]).
Proof.
  unfold publish_message. py_unfold. simpl.
  destruct (publish_loop_spec m (PyDict.items (consumers (env w))) false w)
    as (-> & -> & _).
  simpl. by destruct (existsb _ _).
Qed.

Lemma publish_message_env m w :
  env (final (publish_message m w)) = env w.
Proof.
  unfold publish_message. py_unfold. simpl.
  destruct (publish_loop_spec m (PyDict.items (consumers (env w))) false w)
    as (-> & _ & Henv).
  simpl. by destruct (negb _).
Qed.

Lemma publish_message_store m w r :
  PyDict.wf (consumers (env w)) →
  store (final (publish_message m w)) r =
    match PyDict.get r (consumers (env w)) with
    | Some tags =>
        if is_recipient m tags then put_message m (store w r) else store w r
    | None => store w r
    end.
Proof.
  intros Hwf. rewrite <- (publish_loop_store m _ false w r Hwf).
  unfold publish_message. py_unfold. simpl.
  destruct (publish_loop_spec m (PyDict.items (consumers (env w))) false w)
    as (-> & _ & _).
  simpl. by destruct (negb _).
Qed.

End method_facts.

(** ** What every reachable environment satisfies *)
Section invariant_facts.
Context `{!Collaborators}.

Lemma tables_ok_empty : tables_ok empty_environment.
Proof.
  split; try apply PyDictFacts.wf_empty.
  - intros p r Hin. by apply not_elem_of_nil in Hin.
  - intros r Hin. by apply not_elem_of_nil in Hin.
Qed.

Lemma tables_ok_set_subscribed_tags obj tags w :
  tables_ok (env w) → tables_ok (env (final (set_subscribed_tags obj tags w))).
Proof.
  intros [Hr Hc Hk Hs]. split; simpl; try done.
  - by apply PyDictFacts.wf_set.
  - intros r Hin. apply PyDictFacts.elem_keys_set. auto.
Qed.

Lemma tables_ok_add_role role w :
  tables_ok (env w) → tables_ok (env (final (add_role role w))).
Proof.
  intros [Hr Hc Hk Hs]. rewrite add_role_spec. split; simpl.
  - by apply PyDictFacts.wf_set.
  - by apply PyDictFacts.wf_set.
  - intros p r [[= -> ->]|Hin]%PyDictFacts.elem_items_set; [done | by apply Hk].
  - intros r [->|Hin]%PyDictFacts.elem_values_set; apply PyDictFacts.elem_keys_set; auto.
Qed.

Lemma tables_ok_publish_message m w :
  tables_ok (env w) → tables_ok (env (final (publish_message m w))).
Proof. by rewrite publish_message_env. Qed.

(** In a registry keyed by profile no role is stored twice. *)
Lemma registry_values_NoDup d :
  PyDict.wf d → keyed_by_profile d → NoDup (PyDict.values d).
Proof.
  unfold PyDict.wf, PyDict.keys, PyDict.values. intros Hwf Hkeyed.
  apply (NoDup_fmap_1 profile). rewrite <- list_fmap_compose.
  erewrite list_fmap_ext; [exact Hwf|].
  intros i [p r] Hlook. simpl. apply Hkeyed.
  unfold PyDict.items. by eapply list_elem_of_lookup_2.
Qed.

Lemma occurrences_notin r rs : r ∉ rs → occurrences r rs = 0.
Proof.
  unfold occurrences. induction rs as [|r' rs IH]; [done|].
  rewrite not_elem_of_cons, filter_cons. intros [Hne Hnin].
  rewrite decide_False by (by intros ->). auto.
Qed.

Lemma occurrences_NoDup r rs : NoDup rs → r ∈ rs → occurrences r rs = 1.
Proof.
  induction 1 as [|r' rs Hnin Hnd IH]; [by intros ?%not_elem_of_nil|].
  unfold occurrences in *. rewrite filter_cons. intros [->|Hin]%elem_of_cons.
  - rewrite decide_True by done. simpl. f_equal. by apply occurrences_notin.
  - rewrite decide_False by (by intros ->). auto.
Qed.

Lemma tables_ok_one_entry e : tables_ok e → registered_has_one_entry e.
Proof.
  intros [Hr Hc Hk Hs] r Hin.
  apply Hs, PyDictFacts.get_Some_key in Hin as [tags Hget].
  by rewrite (PyDictFacts.entries_get _ _ _ Hc Hget).
Qed.

End invariant_facts.

(** ** The round driver *)
Section driver.
Context `{!Collaborators, !EventLoop}.

Lemma sync_step_tables_ok w w' :
  sync_step w w' → tables_ok (env w) → tables_ok (env w').
Proof.
  destruct 1.
  - apply tables_ok_add_role.
  - apply tables_ok_set_subscribed_tags.
  - apply tables_ok_publish_message.
  - done.
Qed.

Lemma sync_steps_tables_ok w w' :
  rtc sync_step w w' → tables_ok (env w) → tables_ok (env w').
Proof. induction 1; eauto using sync_step_tables_ok. Qed.

Lemma add_roles_cons r rs w :
  add_roles (r :: rs) w =
    mkOutcome (result (add_roles rs (after_add_role r w)))
      (final (add_roles rs (after_add_role r w)))
      (CallSetEnv r :: calls (add_roles rs (after_add_role r w))).
Proof. done. Qed.

Lemma add_roles_steps rs w : rtc sync_step w (final (add_roles rs w)).
Proof.
  revert w. induction rs as [|r rs IH]; intros w; [apply rtc_refl|].
  rewrite add_roles_cons. simpl.
  eapply rtc_l; [apply (step_add_role r)|]. apply IH.
Qed.

Lemma add_roles_result rs w : result (add_roles rs w) = Returned tt.
Proof.
  revert w. induction rs as [|r rs IH]; intros w; [done|].
  rewrite add_roles_cons. apply IH.
Qed.

Lemma spawn_loop_spec rs futures w :
  spawn_loop rs futures w = mkOutcome (Returned (futures ++ rs)) w (CallRun <$> rs).
Proof.
  revert futures. induction rs as [|r rs IH]; intros futures; simpl.
  - by rewrite app_nil_r.
  - py_unfold. simpl. rewrite IH. simpl. by rewrite <- app_assoc.
Qed.

Lemma round_final w : final (round w) = after_round w.
Proof.
  unfold round, after_round, await_gather, resume. py_unfold. simpl.
  rewrite spawn_loop_spec. simpl.
  by destruct (gather _ w) as [w' [e|]].
Qed.

Lemma round_result w :
  result (round w) =
    match (gather (PyDict.values (roles (env w))) w).2 with
    | None => Returned tt
    | Some e => Raised e
    end.
Proof.
  unfold round, await_gather, resume. py_unfold. simpl.
  rewrite spawn_loop_spec. simpl.
  by destruct (gather _ w) as [w' [e|]].
Qed.

Lemma round_calls_spec w :
  (gather (PyDict.values (roles (env w))) w).2 = None →
  calls (round w) =
    round_calls (PyDict.values (roles (env w))) (is_idle (after_round w)).
Proof.
  unfold round, after_round, round_calls, await_gather, resume. py_unfold. simpl.
  rewrite spawn_loop_spec. simpl.
  by destruct (gather _ w) as [w' [e|]].
Qed.

Lemma rounds_S_returned n w :
  result (round w) = Returned tt →
  rounds (S n) w =
    mkOutcome (result (rounds n (after_round w))) (final (rounds n (after_round w)))
      (calls (round w) ++ calls (rounds n (after_round w))).
Proof.
  intros Hres. change (rounds (S n)) with (round ≫= λ _, rounds n).
  by rewrite (bind_returned _ _ _ tt), round_final.
Qed.

Lemma rounds_S_raised n w e :
  result (round w) = Raised e →
  rounds (S n) w = mkOutcome (Raised e) (after_round w) (calls (round w)).
Proof.
  intros Hres. change (rounds (S n)) with (round ≫= λ _, rounds n).
  by rewrite (bind_raised _ _ _ e), round_final.
Qed.

Lemma rounds_steps n w : through_methods → rtc sync_step w (final (rounds n w)).
Proof.
  intros Hgather. revert w. induction n as [|n IH]; intros w; [apply rtc_refl|].
  destruct (result (round w)) as [[]|e] eqn:Hres.
  - rewrite rounds_S_returned by done. simpl.
    etrans; [apply Hgather | apply IH].
  - rewrite (rounds_S_raised _ _ e) by done. apply Hgather.
Qed.

Lemma step_tables_ok w w' :
  through_methods → step w w' → tables_ok (env w) → tables_ok (env w').
Proof.
  intros Hgather [w1 w2 Hsync|rs w1|k w1].
  - by apply sync_step_tables_ok.
  - apply sync_steps_tables_ok, add_roles_steps.
  - apply sync_steps_tables_ok, rounds_steps, Hgather.
Qed.

Lemma reachable_tables_ok w : through_methods → reachable w → tables_ok (env w).
Proof.
  intros Hgather [st Hsteps].
  assert (tables_ok (env (mkWorld empty_environment st))) as Hok
    by apply tables_ok_empty.
  revert Hok. induction Hsteps; eauto using step_tables_ok.
Qed.

End driver.

(** ** The router: [publish_message] *)
Section router.
Context `{!Collaborators}.

Lemma elem_of_deliveries r m evs :
  m ∈ deliveries r evs ↔ CallPutMessage r m ∈ evs.
Proof.
  unfold deliveries. rewrite list_elem_of_omap. split.
  - intros (e & Hin & Hdel). destruct e; try done. simpl in Hdel.
    case_decide; [|done]. by simplify_eq.
  - intros Hin. exists (CallPutMessage r m). split; [done|].
    simpl. by rewrite decide_True.
Qed.

Lemma deliveries_publish_message r m w :
  PyDict.wf (consumers (env w)) →
  deliveries r (calls (publish_message m w)) =
    match PyDict.get r (consumers (env w)) with
    | Some tags => if is_recipient m tags then [m] else []
    | None => []
    end.
Proof.
  intros Hwf. rewrite publish_message_calls, deliveries_cons. simpl.
  rewrite deliveries_app, deliveries_recipients by done.
  destruct (existsb _ _); simpl; by rewrite app_nil_r.
Qed.

Lemma routed_iff_recipient
    (w : World) (A : Role) (T : gset string) (M : Message) :
  PyDict.wf (consumers (env w)) →
  PyDict.get A (consumers (env w)) = Some T →
  (CallPutMessage A M ∈ calls (publish_message M w) ↔ is_recipient M T = true)
  ∧ deliveries A (calls (publish_message M w)) =
      (if is_recipient M T then [M] else []).
Proof.
  intros Hwf Hget.
  pose proof (deliveries_publish_message A M w Hwf) as Hdel.
  rewrite Hget in Hdel. split; [|done].
  rewrite <- elem_of_deliveries, Hdel.
  destruct (is_recipient M T); [by rewrite list_elem_of_singleton|].
  split; [by intros ?%not_elem_of_nil | done].
Qed.

(** C1. For every actor [A] registered with tag set [T] and every message
    [M], [publish_message M] hands [M] to [A.put_message] if and only if
    [M.is_recipient T] is true, and then exactly once; an actor whose tag set
    is not accepted is not called and its state is left as it was. *)
Theorem publish_message_delivers_iff_recipient
    (w : World) (A : Role) (T : gset string) (M : Message) :
  PyDict.wf (consumers (env w)) →
  PyDict.get A (consumers (env w)) = Some T →
  (CallPutMessage A M ∈ calls (publish_message M w) ↔ is_recipient M T = true)
  ∧ deliveries A (calls (publish_message M w)) =
      (if is_recipient M T then [M] else [])
  ∧ store (final (publish_message M w)) A =
      (if is_recipient M T then put_message M (store w A) else store w A).
Proof.
  intros Hwf Hget.
  destruct (routed_iff_recipient w A T M Hwf Hget)
    as (Hin & Hdel).
  split_and!; [done | done |].
  by rewrite publish_message_store, Hget.
Qed.

(** C2. [publish_message M] returns [True] in every environment; when no
    tag set of the subscription table accepts [M], in particular in an
    environment without actors, its only calls are the two log lines, the
    second being the warning that the message has no recipients. *)
Theorem publish_message_returns_true (w : World) (M : Message) :
  result (publish_message M w) = Returned true
  ∧ (recipients M (PyDict.items (consumers (env w))) = [] →
     calls (publish_message M w) =
       [LogInfo ("publish_message: " +:+ dump M);
        LogWarning ("Message no recipients: " +:+ dump M)])
  ∧ (env w = empty_environment →
     calls (publish_message M w) =
       [LogInfo ("publish_message: " +:+ dump M);
        LogWarning ("Message no recipients: " +:+ dump M)]).
Proof.
  assert (recipients M (PyDict.items (consumers (env w))) = [] →
     calls (publish_message M w) =
       [LogInfo ("publish_message: " +:+ dump M);
        LogWarning ("Message no recipients: " +:+ dump M)]) as Hnone.
  { intros Hrec. rewrite publish_message_calls, Hrec.
    apply recipients_nil_iff in Hrec. by rewrite Hrec. }
  split_and!; [apply publish_message_result | done |].
  intros Henv. apply Hnone. by rewrite Henv.
Qed.

(** C10. When [a2] is registered under the profile of an earlier [a1], the
    registry answers [a2] for that profile, but [a1] keeps its entry in the
    subscription table, so a message accepted by [a1]'s tag set is still
    handed to [a1]. *)
Theorem superseded_role_still_receives
    (w : World) (a1 a2 : Role) (M : Message) :
  PyDict.wf (consumers (env w)) →
  a1 ≠ a2 →
  profile a1 = profile a2 →
  let w2 := final (add_role a2 (final (add_role a1 w))) in
  let T1 := subscribed_tags (set_env (store w a1)) in
  get_role (profile a1) w2 = Some a2
  ∧ get_subscribed_tags a1 w2 = TagSet T1
  ∧ (is_recipient M T1 = true →
     deliveries a1 (calls (publish_message M w2)) = [M]
     ∧ CallPutMessage a1 M ∈ calls (publish_message M w2)).
Proof.
  intros Hwf Hne Hprof w2 T1.
  assert (PyDict.get a1 (consumers (env w2)) = Some T1) as Hget.
  { unfold w2. rewrite !add_role_spec. simpl.
    rewrite PyDictFacts.get_set_ne by done. rewrite PyDictFacts.get_set_eq.
    unfold T1. by rewrite decide_True. }
  assert (PyDict.wf (consumers (env w2))) as Hwf2.
  { unfold w2. rewrite !add_role_spec. simpl. by do 2 apply PyDictFacts.wf_set. }
  split_and!.
  - unfold w2, get_role. rewrite !add_role_spec. simpl.
    rewrite Hprof. apply PyDictFacts.get_set_eq.
  - unfold get_subscribed_tags. by rewrite Hget.
  - intros Hrec.
    destruct (routed_iff_recipient w2 a1 T1 M Hwf2 Hget)
      as (Hin & Hdel).
    rewrite Hrec in Hdel. split; [done | by apply Hin].
Qed.

End router.

(** ** The registry, the subscription table and the idleness property *)
Section registry.
Context `{!Collaborators}.

(** C3. Registering [a2] after [a1] under the same profile raises nothing,
    and [get_role] then answers [a2] for that profile. *)
Theorem add_role_last_write_wins (w : World) (a1 a2 : Role) :
  profile a1 = profile a2 →
  let w1 := final (add_role a1 w) in
  result (add_role a1 w) = Returned tt
  ∧ result (add_role a2 w1) = Returned tt
  ∧ get_role (profile a1) w1 = Some a1
  ∧ get_role (profile a1) (final (add_role a2 w1)) = Some a2.
Proof.
  intros Hprof w1. unfold w1, get_role. rewrite !add_role_spec. simpl.
  split_and!; try done.
  - apply PyDictFacts.get_set_eq.
  - rewrite Hprof. apply PyDictFacts.get_set_eq.
Qed.

Lemma is_idle_loop_true st rs :
  is_idle_loop st rs = true ↔ ∀ r, r ∈ rs → role_is_idle (st r) = true.
Proof.
  induction rs as [|r rs IH]; simpl.
  - split; [by intros _ r ?%not_elem_of_nil | done].
  - destruct (role_is_idle (st r)) eqn:Hidle; simpl.
    + rewrite IH. split.
      * intros Hall r' [->|Hin]%elem_of_cons; auto.
      * intros Hall r' Hin. apply Hall. by apply list_elem_of_further.
    + split; [done|]. intros Hall.
      rewrite <- Hidle. apply Hall, list_elem_of_here.
Qed.

(** C4. [is_idle] is true exactly when every role in the registry reports
    itself idle: it is true of an empty registry, and false as soon as one
    registered role is not idle. *)
Theorem is_idle_iff_all_idle (w : World) :
  (is_idle w = true ↔
     ∀ r, r ∈ PyDict.values (roles (env w)) → role_is_idle (store w r) = true)
  ∧ (roles (env w) = PyDict.empty → is_idle w = true)
  ∧ (∀ r, r ∈ PyDict.values (roles (env w)) →
          role_is_idle (store w r) = false → is_idle w = false).
Proof.
  unfold is_idle. split_and!.
  - apply is_idle_loop_true.
  - by intros ->.
  - intros r Hin Hbusy. apply not_true_is_false. intros Hidle.
    rewrite is_idle_loop_true in Hidle. specialize (Hidle r Hin). congruence.
Qed.

(** C5. [get_role name] answers [None] for a name that is not a key of the
    registry, and the stored role for a name that is; it is a plain lookup
    and has no failing case. *)
Theorem get_role_lookup (w : World) (name : string) :
  (name ∉ PyDict.keys (roles (env w)) → get_role name w = None)
  ∧ (∀ r, PyDict.wf (roles (env w)) →
          (name, r) ∈ PyDict.items (roles (env w)) → get_role name w = Some r)
  ∧ (∀ r, get_role name w = Some r → (name, r) ∈ PyDict.items (roles (env w))).
Proof.
  unfold get_role. split_and!.
  - apply PyDictFacts.get_None.
  - intros r Hwf Hin. by apply PyDictFacts.elem_get.
  - intros r. apply PyDictFacts.get_Some_elem.
Qed.

(** C6. Two successive [set_subscribed_tags] on the same actor, with [T1]
    then [T2], leave [T2] as the actor's only entry: [get_subscribed_tags]
    answers [T2], nothing of [T1] outside [T2] is in it, and
    [publish_message] routes by [T2]. *)
Theorem set_subscribed_tags_replaces
    (w : World) (A : Role) (T1 T2 : gset string) (M : Message) :
  PyDict.wf (consumers (env w)) →
  let w2 := final (set_subscribed_tags A T2 (final (set_subscribed_tags A T1 w))) in
  get_subscribed_tags A w2 = TagSet T2
  ∧ PyDict.entries A (consumers (env w2)) = [(A, T2)]
  ∧ (∀ T x, get_subscribed_tags A w2 = TagSet T → x ∈ T1 ∖ T2 → x ∉ T)
  ∧ deliveries A (calls (publish_message M w2)) =
      (if is_recipient M T2 then [M] else []).
Proof.
  intros Hwf w2.
  assert (PyDict.get A (consumers (env w2)) = Some T2) as Hget
    by apply PyDictFacts.get_set_eq.
  assert (PyDict.wf (consumers (env w2))) as Hwf2
    by (by do 2 apply PyDictFacts.wf_set).
  assert (get_subscribed_tags A w2 = TagSet T2) as Htags
    by (unfold get_subscribed_tags; by rewrite Hget).
  split_and!.
  - done.
  - by apply PyDictFacts.entries_get.
  - intros T x. rewrite Htags. intros [= <-]. set_solver.
  - by rewrite deliveries_publish_message, Hget.
Qed.

(** C8, as the code has it. [add_role] does not look at the profile: a role
    whose profile is the empty string is registered without error and is
    stored under the empty key. *)
Theorem add_role_accepts_empty_profile (w : World) (role : Role) :
  profile role = "" →
  result (add_role role w) = Returned tt
  ∧ get_role "" (final (add_role role w)) = Some role.
Proof.
  intros Hprof. rewrite add_role_spec. unfold get_role. simpl.
  rewrite Hprof. split; [done | apply PyDictFacts.get_set_eq].
Qed.

End registry.

(** ** Sequences of operations, and [run] *)
Section rounds.
Context `{!Collaborators, !EventLoop}.

(** C7, as the code has it. After every sequence of public operations on a
    fresh environment, every role in the registry has exactly one entry in
    the subscription table. *)
Theorem registered_role_has_one_entry (w : World) :
  through_methods →
  reachable w →
  registered_has_one_entry (env w)
  ∧ PyDict.wf (roles (env w)) ∧ PyDict.wf (consumers (env w)).
Proof.
  intros Hgather Hreach.
  pose proof (reachable_tables_ok w Hgather Hreach) as Hok.
  split_and!; [by apply tables_ok_one_entry | apply Hok | apply Hok].
Qed.

Lemma invocations_round_calls rs idle : invocations (round_calls rs idle) = rs.
Proof.
  unfold round_calls, invocations. rewrite omap_app. simpl.
  rewrite app_nil_r. induction rs as [|r rs IH]; [done|].
  rewrite fmap_cons. simpl. unfold omap in IH. by rewrite IH.
Qed.

Lemma mjoin_cons {A} (l : list A) (ls : list (list A)) :
  mjoin (l :: ls) = l ++ mjoin ls.
Proof. done. Qed.

Lemma occurrences_rounds a rs (idle : nat → bool) (l : list nat) :
  occurrences a (invocations (mjoin ((λ i, round_calls rs (idle i)) <$> l))) =
    length l * occurrences a rs.
Proof.
  induction l as [|i l IH]; [done|].
  rewrite fmap_cons, mjoin_cons, invocations_app, occurrences_app.
  rewrite invocations_round_calls, IH. simpl. lia.
Qed.

Lemma world_after_S i w : world_after (S i) w = world_after i (after_round w).
Proof. unfold world_after. by rewrite Nat.iter_succ_r. Qed.

Lemma rounds_completing n w :
  (∀ i, i < n → round_completes (world_after i w)) →
  result (rounds n w) = Returned tt
  ∧ final (rounds n w) = world_after n w
  ∧ calls (rounds n w) =
      mjoin ((λ i, round_calls (batch (world_after i w))
                     (is_idle (world_after (S i) w))) <$> seq 0 n).
Proof.
  revert w. induction n as [|n IH]; intros w Hall; [done|].
  assert (round_completes w) as Hnone by (apply (Hall 0); lia).
  assert (result (round w) = Returned tt) as Hres.
  { rewrite round_result. unfold round_completes, batch in Hnone. by rewrite Hnone. }
  rewrite rounds_S_returned by done. cbn [result final calls].
  destruct (IH (after_round w)) as (-> & -> & ->).
  { intros i Hi. rewrite <- world_after_S. apply Hall. lia. }
  split_and!; [done | by rewrite world_after_S |].
  rewrite round_calls_spec by done.
  rewrite <- cons_seq, fmap_cons, mjoin_cons, <- fmap_S_seq.
  rewrite <- list_fmap_compose. f_equal. f_equal.
  apply list_fmap_ext. intros _ i _. simpl.
  by rewrite <- !world_after_S.
Qed.

(** C9, as the code has it. When none of the awaits of [run k] raises and
    the registry is the same at the start of each round, [run k] for
    [k >= 1] returns after [k] rounds, one after the other: in each, [run()]
    is called on every registered role, then all of them are awaited, then
    the idleness of the environment is logged.  So [run()] is called [k]
    times on each registered role. *)
Theorem run_performs_k_rounds_when_no_await_raises (k : Z) (w : World) :
  (1 ≤ k)%Z →
  (∀ i, i < Z.to_nat k → round_completes (world_after i w)) →
  (∀ i, i < Z.to_nat k → roles (env (world_after i w)) = roles (env w)) →
  let rs := PyDict.values (roles (env w)) in
  result (run k w) = Returned tt
  ∧ calls (run k w) =
      mjoin ((λ i, round_calls rs (is_idle (world_after (S i) w)))
               <$> seq 0 (Z.to_nat k))
  ∧ (∀ a, Z.of_nat (occurrences a (invocations (calls (run k w)))) =
          (k * Z.of_nat (occurrences a rs))%Z)
  ∧ (PyDict.wf (roles (env w)) → keyed_by_profile (roles (env w)) →
     ∀ a, a ∈ rs →
          Z.of_nat (occurrences a (invocations (calls (run k w)))) = k).
Proof.
  intros Hk Hcompletes Hfixed rs. unfold run.
  destruct (rounds_completing (Z.to_nat k) w Hcompletes) as (Hres & _ & Hcalls).
  assert (calls (rounds (Z.to_nat k) w) =
            mjoin ((λ i, round_calls rs (is_idle (world_after (S i) w)))
                     <$> seq 0 (Z.to_nat k))) as Hcalls'.
  { rewrite Hcalls. f_equal. apply list_fmap_ext.
    intros j i [-> Hj]%lookup_seq. simpl.
    unfold batch. by rewrite Hfixed. }
  assert (∀ a, Z.of_nat (occurrences a (invocations (calls (rounds (Z.to_nat k) w)))) =
               (k * Z.of_nat (occurrences a rs))%Z) as Hcount.
  { intros a. rewrite Hcalls'.
    rewrite (occurrences_rounds a rs (λ i, is_idle (world_after (S i) w))).
    rewrite length_seq. lia. }
  split_and!; try done.
  intros Hwf Hkeyed a Hin. rewrite Hcount.
  rewrite (occurrences_NoDup a rs); [lia | | done].
  by apply registry_values_NoDup.
Qed.

End rounds.

(** ** The concrete team, run *)
Section scenario_facts.
#[local] Existing Instance Scenario.collab.
#[local] Existing Instance Scenario.loop.
Import Scenario.

Lemma scenario_through_methods : through_methods.
Proof. intros futures w. apply rtc_once. simpl. apply step_role_state. Qed.

Lemma C1_witness :
  PyDict.wf (consumers (env team))
  ∧ PyDict.get 2%positive (consumers (env team)) = Some {["b"]}
  ∧ deliveries 2%positive (calls (publish_message hello team)) = [hello].
Proof.
  assert (PyDict.wf (consumers (env team))) as Hwf by compute_done.
  assert (PyDict.get 2%positive (consumers (env team)) = Some {["b"]}) as Hget by done.
  split_and!; [done | done |].
  apply (publish_message_delivers_iff_recipient team 2%positive {["b"]} hello Hwf Hget).
Defined.

Lemma C2_witness :
  recipients hello (PyDict.items (consumers (env fresh))) = []
  ∧ result (publish_message hello fresh) = Returned true
  ∧ calls (publish_message hello fresh) =
      [LogInfo "publish_message: hi"; LogWarning "Message no recipients: hi"].
Proof.
  assert (recipients hello (PyDict.items (consumers (env fresh))) = []) as Hrec by done.
  destruct (publish_message_returns_true fresh hello) as (Hres & Hnone & _).
  split_and!; [done | done | exact (Hnone Hrec)].
Defined.

Lemma C3_witness :
  profile 1%positive = profile 2%positive
  ∧ result (add_role 2%positive (final (add_role 1%positive fresh))) = Returned tt
  ∧ get_role "Alice" superseded = Some 2%positive.
Proof.
  assert (profile 1%positive = profile 2%positive) as Hprof by done.
  destruct (add_role_last_write_wins fresh 1%positive 2%positive Hprof)
    as (_ & Hres & _ & Hget).
  split_and!; [done | exact Hres | exact Hget].
Defined.

Lemma C4_witness :
  4%positive ∈ PyDict.values (roles (env team))
  ∧ role_is_idle (store team 4%positive) = false
  ∧ is_idle team = false
  ∧ is_idle (final (run 1 team)) = true.
Proof.
  assert (4%positive ∈ PyDict.values (roles (env team))) as Hin by compute_done.
  assert (role_is_idle (store team 4%positive) = false) as Hbusy by done.
  destruct (is_idle_iff_all_idle team) as (_ & _ & Hone).
  destruct (is_idle_iff_all_idle (final (run 1 team))) as (Hall & _ & _).
  split_and!; [done | done | exact (Hone _ Hin Hbusy) |].
  apply Hall. intros r Hr. simpl in Hr.
  repeat (apply elem_of_cons in Hr as [->|Hr]; [done|]).
  by apply not_elem_of_nil in Hr.
Defined.

Lemma C5_witness :
  ("Dave" ∉ PyDict.keys (roles (env team)))
  ∧ PyDict.wf (roles (env team))
  ∧ ("Bob", 4%positive) ∈ PyDict.items (roles (env team))
  ∧ get_role "Dave" team = None
  ∧ get_role "Bob" team = Some 4%positive.
Proof.
  assert ("Dave" ∉ PyDict.keys (roles (env team))) as Hnin by compute_done.
  assert (PyDict.wf (roles (env team))) as Hwf by compute_done.
  assert (("Bob", 4%positive) ∈ PyDict.items (roles (env team))) as Hin by compute_done.
  destruct (get_role_lookup team "Dave") as (Hmiss & _ & _).
  destruct (get_role_lookup team "Bob") as (_ & Hhit & _).
  split_and!; [done | done | done | exact (Hmiss Hnin) | exact (Hhit _ Hwf Hin)].
Defined.

Lemma C6_witness :
  PyDict.wf (consumers (env team))
  ∧ get_subscribed_tags 4%positive
      (final (set_subscribed_tags 4%positive {["b"]}
                (final (set_subscribed_tags 4%positive {["a"]} team))))
    = TagSet {["b"]}
  ∧ deliveries 4%positive
      (calls (publish_message (mkMsg "for a" {["a"]})
                (final (set_subscribed_tags 4%positive {["b"]}
                          (final (set_subscribed_tags 4%positive {["a"]} team))))))
    = [].
Proof.
  assert (PyDict.wf (consumers (env team))) as Hwf by compute_done.
  destruct (set_subscribed_tags_replaces team 4%positive {["a"]} {["b"]}
              (mkMsg "for a" {["a"]}) Hwf) as (Hget & _ & _ & Hdel).
  split_and!; [done | exact Hget | exact Hdel].
Defined.

Lemma scenario_reachable_superseded : reachable superseded.
Proof.
  exists st0. eapply rtc_l; [apply step_sync, (step_add_role 1%positive)|].
  eapply rtc_l; [apply step_sync, (step_add_role 2%positive)|].
  apply rtc_refl.
Qed.

Lemma C7_witness :
  through_methods
  ∧ reachable superseded
  ∧ registered_has_one_entry (env superseded).
Proof.
  split_and!; [apply scenario_through_methods | apply scenario_reachable_superseded |].
  apply (registered_role_has_one_entry superseded
           scenario_through_methods scenario_reachable_superseded).
Defined.

(** C7 fails as stated: once role 2 has taken the profile of role 1, role 1
    is a key of the subscription table and is not in the registry; so is a
    role that only had its tags set. *)
Lemma C7_counterexample :
  reachable superseded
  ∧ ¬ subscribed_only_if_registered (env superseded)
  ∧ reachable (final (set_subscribed_tags 5%positive {["a"]} fresh))
  ∧ ¬ subscribed_only_if_registered
        (env (final (set_subscribed_tags 5%positive {["a"]} fresh))).
Proof.
  split_and!.
  - apply scenario_reachable_superseded.
  - intros Hsub. specialize (Hsub 1%positive). simpl in Hsub.
    assert (1%positive ∈ [2%positive]) as Hin by (apply Hsub; compute_done).
    by apply list_elem_of_singleton in Hin.
  - exists st0. apply rtc_once, step_sync, step_set_subscribed_tags.
  - intros Hsub. specialize (Hsub 5%positive). simpl in Hsub.
    assert (5%positive ∈ @nil Role) as Hin by (apply Hsub; compute_done).
    by apply not_elem_of_nil in Hin.
Qed.

Lemma C8_witness :
  profile 3%positive = ""
  ∧ result (add_role 3%positive fresh) = Returned tt
  ∧ get_role "" (final (add_role 3%positive fresh)) = Some 3%positive.
Proof.
  split; [done|]. by apply (add_role_accepts_empty_profile fresh 3%positive).
Defined.

(** C8 fails as stated: registering role 3, whose profile is empty, does not
    raise, and the registry then holds it under the empty key. *)
Lemma C8_counterexample :
  profile 3%positive = ""
  ∧ (¬ ∃ e, result (add_role 3%positive fresh) = Raised e)
  ∧ get_role "" fresh = None
  ∧ get_role "" (final (add_role 3%positive fresh)) = Some 3%positive.
Proof.
  split_and!; try done. by intros [e He].
Qed.

Lemma C9_witness :
  (1 ≤ 2)%Z
  ∧ (∀ i, i < Z.to_nat 2 → round_completes (world_after i team))
  ∧ (∀ i, i < Z.to_nat 2 → roles (env (world_after i team)) = roles (env team))
  ∧ PyDict.wf (roles (env team))
  ∧ keyed_by_profile (roles (env team))
  ∧ 4%positive ∈ PyDict.values (roles (env team))
  ∧ result (run 2 team) = Returned tt
  ∧ calls (run 2 team) =
      [CallRun 2%positive; CallRun 4%positive; CallRun 5%positive;
       AwaitGather [2%positive; 4%positive; 5%positive]; LogInfo "is idle: True";
       CallRun 2%positive; CallRun 4%positive; CallRun 5%positive;
       AwaitGather [2%positive; 4%positive; 5%positive]; LogInfo "is idle: True"]
  ∧ Z.of_nat (occurrences 4%positive (invocations (calls (run 2 team)))) = 2%Z.
Proof.
  assert (1 ≤ 2)%Z as Hk by lia.
  assert (∀ i, i < Z.to_nat 2 → round_completes (world_after i team))
    as Hcompletes by done.
  assert (∀ i, i < Z.to_nat 2 → roles (env (world_after i team)) = roles (env team))
    as Hfixed.
  { intros i Hi. destruct i as [|[|i]]; [done | done | simpl in Hi; lia]. }
  assert (PyDict.wf (roles (env team))) as Hwf by compute_done.
  assert (keyed_by_profile (roles (env team))) as Hkeyed.
  { intros p r Hin. simpl in Hin.
    repeat (apply elem_of_cons in Hin as [[= -> ->]|Hin]; [done|]).
    by apply not_elem_of_nil in Hin. }
  assert (4%positive ∈ PyDict.values (roles (env team))) as Hin by compute_done.
  destruct (run_performs_k_rounds_when_no_await_raises 2 team Hk Hcompletes Hfixed)
    as (Hres & Hcalls & _ & Hcount).
  split_and!;
    [done | done | done | done | done | done
    | exact Hres | exact Hcalls | exact (Hcount Hwf Hkeyed _ Hin)].
Defined.

Lemma C10_witness :
  PyDict.wf (consumers (env fresh))
  ∧ 1%positive ≠ 2%positive
  ∧ profile 1%positive = profile 2%positive
  ∧ is_recipient (mkMsg "for a" {["a"]}) {["a"]} = true
  ∧ get_role "Alice" superseded = Some 2%positive
  ∧ deliveries 1%positive (calls (publish_message (mkMsg "for a" {["a"]}) superseded))
    = [mkMsg "for a" {["a"]}].
Proof.
  assert (PyDict.wf (consumers (env fresh))) as Hwf by compute_done.
  assert (1%positive ≠ 2%positive) as Hne by done.
  assert (profile 1%positive = profile 2%positive) as Hprof by done.
  assert (is_recipient (mkMsg "for a" {["a"]}) {["a"]} = true) as Hrec by done.
  destruct (superseded_role_still_receives fresh 1%positive 2%positive
              (mkMsg "for a" {["a"]}) Hwf Hne Hprof) as (Hget & _ & Hdel).
  split_and!; [done | done | done | done | exact Hget | exact (proj1 (Hdel Hrec))].
Defined.

End scenario_facts.

(** ** More on registration *)
Section registration.
Context `{!Collaborators}.

(** The world after registering the roles [rs] one by one. *)
Lemma add_roles_spec rs w :
  add_roles rs w =
    mkOutcome (Returned tt) (foldl (λ w' r, after_add_role r w') w rs)
      (CallSetEnv <$> rs).
Proof.
  revert w. induction rs as [|r rs IH]; intros w; [done|].
  rewrite add_roles_cons, IH. done.
Qed.

Lemma after_add_roles_get_role_ne name rs w :
  name ∉ profile <$> rs →
  get_role name (foldl (λ w' r, after_add_role r w') w rs) = get_role name w.
Proof.
  revert w. induction rs as [|r rs IH]; intros w; [done|].
  rewrite fmap_cons, not_elem_of_cons. intros [Hne Hnin]. simpl.
  rewrite IH by done. unfold get_role. simpl.
  by apply PyDictFacts.get_set_ne.
Qed.

Lemma after_add_role_consumers_keys r r' w :
  r' ∈ PyDict.keys (consumers (env (after_add_role r w))) ↔
  r' = r ∨ r' ∈ PyDict.keys (consumers (env w)).
Proof. apply PyDictFacts.elem_keys_set. Qed.

Lemma after_add_roles_subscribed r rs w :
  r ∈ rs ∨ r ∈ PyDict.keys (consumers (env w)) →
  r ∈ PyDict.keys (consumers (env (foldl (λ w' r', after_add_role r' w') w rs))).
Proof.
  revert w. induction rs as [|r' rs IH]; intros w.
  - by intros [?%not_elem_of_nil|?].
  - rewrite elem_of_cons. intros Hin. simpl. apply IH.
    rewrite after_add_role_consumers_keys. naive_solver.
Qed.

(** X1. [add_roles] registers the roles in order and never raises: it calls
    [set_env] once on each, in order; afterwards every role of the sequence
    has an entry in the subscription table, and [get_role] answers, for a
    profile, the last role of the sequence that has it. *)
Theorem add_roles_registers_in_order
    (w : World) (rs1 rs2 : list Role) (r : Role) :
  profile r ∉ profile <$> rs2 →
  let o := add_roles (rs1 ++ r :: rs2) w in
  result o = Returned tt
  ∧ calls o = CallSetEnv <$> (rs1 ++ r :: rs2)
  ∧ get_role (profile r) (final o) = Some r
  ∧ (∀ r', r' ∈ rs1 ++ r :: rs2 → r' ∈ PyDict.keys (consumers (env (final o)))).
Proof.
  intros Hlast o. unfold o. rewrite add_roles_spec. simpl.
  split_and!; [done | done | |].
  - rewrite foldl_app. simpl.
    rewrite after_add_roles_get_role_ne by done.
    unfold get_role. simpl. apply PyDictFacts.get_set_eq.
  - intros r' Hin. apply after_add_roles_subscribed. by left.
Qed.

Lemma bind_assoc {A B C} (m : Py A) (f : A → Py B) (g : B → Py C) w :
  ((m ≫= f) ≫= g) w = (m ≫= (λ a, f a ≫= g)) w.
Proof.
  unfold mbind, py_bind. simpl.
  destruct (result (m w)) as [a|e]; simpl; [|done].
  destruct (result (f a (final (m w)))) as [b|e]; simpl; [|done].
  by rewrite app_assoc.
Qed.

Lemma ret_bind {A B} (a : A) (f : A → Py B) w : (mret a ≫= f) w = f a w.
Proof. unfold mbind, mret, py_bind, py_ret. simpl. by destruct (f a w). Qed.

(** X2. Registering [rs1 ++ rs2] in one [add_roles] is registering [rs1],
    then [rs2]: same result, same final world, same calls. *)
Theorem add_roles_app (w : World) (rs1 rs2 : list Role) :
  add_roles (rs1 ++ rs2) w = (add_roles rs1;; add_roles rs2) w.
Proof.
  rewrite (bind_returned _ _ _ tt) by apply add_roles_result.
  rewrite !add_roles_spec. simpl.
  by rewrite foldl_app, fmap_app.
Qed.

(** X3. [add_role] touches one name, one subscription and one role: the
    answer of [get_role] for any other name, the tags of any other object
    and the state of any other role are as before. *)
Theorem add_role_frame (w : World) (role : Role) :
  let w' := final (add_role role w) in
  (∀ name, name ≠ profile role → get_role name w' = get_role name w)
  ∧ (∀ obj, obj ≠ role →
       get_subscribed_tags obj w' = get_subscribed_tags obj w
       ∧ store w' obj = store w obj).
Proof.
  intros w'. unfold w'. rewrite add_role_spec. simpl. split.
  - intros name Hne. unfold get_role. simpl.
    by apply PyDictFacts.get_set_ne.
  - intros obj Hne. unfold get_subscribed_tags. simpl.
    rewrite PyDictFacts.get_set_ne by done.
    by rewrite decide_False.
Qed.

(** X4. [add_role] calls [set_env] on the role, and nothing else; the role
    is then among the roles of the registry, and it is subscribed with the
    tags it reports after [set_env]. *)
Theorem add_role_subscribes (w : World) (role : Role) :
  let o := add_role role w in
  calls o = [CallSetEnv role]
  ∧ store (final o) role = set_env (store w role)
  ∧ get_subscribed_tags role (final o) =
      TagSet (subscribed_tags (set_env (store w role)))
  ∧ role ∈ PyDict.values (get_roles (final o)).
Proof.
  intros o. unfold o. rewrite add_role_spec. simpl.
  assert (store (after_add_role role w) role = set_env (store w role)) as Hst
    by (simpl; by rewrite decide_True).
  split_and!; [done | done | |].
  - unfold get_subscribed_tags. simpl.
    rewrite PyDictFacts.get_set_eq. by rewrite decide_True.
  - unfold get_roles. simpl.
    apply (PyDictFacts.elem_values (profile role)).
    apply PyDictFacts.get_Some_elem, PyDictFacts.get_set_eq.
Qed.

(** X5. The registry keeps its order: registering under a profile that is
    taken leaves the profiles and their order as they are, and registering
    under a new profile puts it last. *)
Theorem add_role_keeps_order (w : World) (role : Role) :
  let w' := final (add_role role w) in
  (profile role ∈ PyDict.keys (get_roles w) →
     PyDict.keys (get_roles w') = PyDict.keys (get_roles w))
  ∧ (profile role ∉ PyDict.keys (get_roles w) →
     PyDict.keys (get_roles w') = PyDict.keys (get_roles w) ++ [profile role]
     ∧ PyDict.values (get_roles w') = PyDict.values (get_roles w) ++ [role]).
Proof.
  intros w'. unfold w', get_roles. rewrite add_role_spec. simpl.
  split; intros Hin.
  - by rewrite PyDictFacts.keys_set, decide_True.
  - split; [by rewrite PyDictFacts.keys_set, decide_False|].
    by apply PyDictFacts.values_set_new.
Qed.

(** X6. [set_subscribed_tags] calls no collaborator and changes one entry:
    it is read back by [get_subscribed_tags]; the registry, the states of
    the roles and the tags of every other object are as before. *)
Theorem set_subscribed_tags_frame
    (w : World) (obj : Role) (tags : gset string) :
  let o := set_subscribed_tags obj tags w in
  result o = Returned tt
  ∧ calls o = []
  ∧ get_roles (final o) = get_roles w
  ∧ store (final o) = store w
  ∧ is_idle (final o) = is_idle w
  ∧ get_subscribed_tags obj (final o) = TagSet tags
  ∧ (∀ obj', obj' ≠ obj →
       get_subscribed_tags obj' (final o) = get_subscribed_tags obj' w).
Proof.
  intros o. unfold o, get_subscribed_tags. simpl.
  split_and!; try done.
  - by rewrite PyDictFacts.get_set_eq.
  - intros obj' Hne. by rewrite PyDictFacts.get_set_ne.
Qed.

End registration.

(** ** More on routing and idleness *)
Section routing.
Context `{!Collaborators}.

Lemma put_targets_recipients m rs :
  put_targets ((λ r, CallPutMessage r m) <$> rs) = rs.
Proof.
  unfold put_targets. induction rs as [|r rs IH]; [done|].
  rewrite fmap_cons. simpl. unfold omap in IH. by rewrite IH.
Qed.

Lemma recipients_sublist m items : recipients m items `sublist_of` items.*1.
Proof.
  unfold recipients. apply fmap_sublist, sublist_filter.
Qed.

Lemma is_idle_loop_ext st st' rs :
  (∀ r, r ∈ rs → role_is_idle (st r) = role_is_idle (st' r)) →
  is_idle_loop st rs = is_idle_loop st' rs.
Proof.
  induction rs as [|r rs IH]; [done|]. intros Hsame. simpl.
  rewrite (Hsame r) by apply list_elem_of_here.
  rewrite IH; [done|]. intros r' Hin. by apply Hsame, list_elem_of_further.
Qed.

(** X7. [publish_message] changes neither table, and an object without an
    entry in the subscription table gets no message and keeps its state,
    registered or not. *)
Theorem publish_message_keeps_tables (w : World) (M : Message) :
  PyDict.wf (consumers (env w)) →
  let w' := final (publish_message M w) in
  env w' = env w
  ∧ (∀ name, get_role name w' = get_role name w)
  ∧ (∀ obj, get_subscribed_tags obj w' = get_subscribed_tags obj w)
  ∧ (∀ obj, get_subscribed_tags obj w = EmptyDict →
       deliveries obj (calls (publish_message M w)) = []
       ∧ store w' obj = store w obj).
Proof.
  intros Hwf w'. unfold w'.
  pose proof (publish_message_env M w) as Henv.
  split_and!; [done | | |].
  - intros name. unfold get_role. by rewrite Henv.
  - intros obj. unfold get_subscribed_tags. by rewrite Henv.
  - intros obj. unfold get_subscribed_tags.
    destruct (PyDict.get obj (consumers (env w))) as [tags|] eqn:Hget; [done|].
    intros _. by rewrite deliveries_publish_message, publish_message_store, Hget.
Qed.

(** X8. The calls of [publish_message], in order: the log line of the
    message first, then [put_message] on the accepted subscribers in the
    order of the subscription table, each with the published message, and
    the warning last exactly when there was no [put_message]. *)
Theorem publish_message_call_order (w : World) (M : Message) :
  let evs := calls (publish_message M w) in
  head evs = Some (LogInfo ("publish_message: " +:+ dump M))
  ∧ put_targets evs = recipients M (PyDict.items (consumers (env w)))
  ∧ put_targets evs `sublist_of` PyDict.keys (consumers (env w))
  ∧ (∀ r m, CallPutMessage r m ∈ evs → m = M)
  ∧ (LogWarning ("Message no recipients: " +:+ dump M) ∈ evs ↔ put_targets evs = [])
  ∧ (put_targets evs = [] →
       last evs = Some (LogWarning ("Message no recipients: " +:+ dump M))).
Proof.
  intros evs. unfold evs. rewrite publish_message_calls.
  set (rs := recipients M (PyDict.items (consumers (env w)))).
  assert (put_targets
            (LogInfo ("publish_message: " +:+ dump M)
             :: ((λ r, CallPutMessage r M) <$> rs) ++
                (if existsb (λ kv, is_recipient M kv.2)
                      (PyDict.items (consumers (env w)))
                 then [] else [no_recipients_warning M])) = rs) as Htargets.
  { unfold put_targets. simpl. rewrite omap_app.
    fold (put_targets ((λ r, CallPutMessage r M) <$> rs)).
    rewrite put_targets_recipients.
    destruct (existsb _ _); simpl; by rewrite app_nil_r. }
  rewrite Htargets.
  pose proof (recipients_nil_iff M (PyDict.items (consumers (env w)))) as Hnil.
  fold rs in Hnil.
  split_and!.
  - done.
  - done.
  - apply recipients_sublist.
  - intros r m. rewrite elem_of_cons, elem_of_app, list_elem_of_fmap.
    intros [?|[(r' & [= _ ->] & _)|Hin]]; [done | done |].
    destruct (existsb _ _); [by apply not_elem_of_nil in Hin|].
    by apply list_elem_of_singleton in Hin.
  - rewrite elem_of_cons, elem_of_app, list_elem_of_fmap. split.
    + intros [?|[(r' & ? & _)|Hin]]; [done | done |].
      apply Hnil. destruct (existsb _ _); [by apply not_elem_of_nil in Hin | done].
    + intros Hrs. apply Hnil in Hrs. rewrite Hrs. right. right.
      apply list_elem_of_here.
  - intros Hrs. rewrite Hrs. apply Hnil in Hrs. by rewrite Hrs.
Qed.

(** X9. [is_idle] reads the registry and the idleness of the roles in it,
    and nothing else: two worlds with the same registry, whose registered
    roles report the same idleness, have the same [is_idle]. *)
Theorem is_idle_reads_registered_roles (w w' : World) :
  get_roles w' = get_roles w →
  (∀ r, r ∈ PyDict.values (get_roles w) →
        role_is_idle (store w' r) = role_is_idle (store w r)) →
  is_idle w' = is_idle w.
Proof.
  unfold get_roles, is_idle. intros -> Hsame.
  by apply is_idle_loop_ext.
Qed.

(** X10. A message that the tag set of no registered role accepts leaves
    [is_idle] as it was, whoever else receives it. *)
Theorem publish_message_elsewhere_keeps_idleness (w : World) (M : Message) :
  PyDict.wf (consumers (env w)) →
  (∀ r tags, r ∈ PyDict.values (get_roles w) →
             get_subscribed_tags r w = TagSet tags → is_recipient M tags = false) →
  is_idle (final (publish_message M w)) = is_idle w.
Proof.
  intros Hwf Hnone. unfold is_idle.
  rewrite publish_message_env. apply is_idle_loop_ext.
  intros r Hin. rewrite publish_message_store by done.
  specialize (Hnone r). unfold get_subscribed_tags in Hnone.
  destruct (PyDict.get r (consumers (env w))) as [tags|]; [|done].
  by rewrite (Hnone tags Hin eq_refl).
Qed.

(** X11. Registration followed by publication: a role that has just been
    registered is handed the next published message exactly when the tags
    it reported at registration accept it, and then once. *)
Theorem add_role_then_publish_message (w : World) (role : Role) (M : Message) :
  PyDict.wf (consumers (env w)) →
  let w1 := final (add_role role w) in
  let tags := subscribed_tags (set_env (store w role)) in
  deliveries role (calls (publish_message M w1)) =
    (if is_recipient M tags then [M] else [])
  ∧ store (final (publish_message M w1)) role =
    (if is_recipient M tags
     then put_message M (set_env (store w role))
     else set_env (store w role)).
Proof.
  intros Hwf w1 tags.
  assert (PyDict.wf (consumers (env w1))) as Hwf1.
  { unfold w1. rewrite add_role_spec. simpl. by apply PyDictFacts.wf_set. }
  assert (PyDict.get role (consumers (env w1)) = Some tags) as Hget.
  { unfold w1, tags. rewrite add_role_spec. simpl.
    rewrite PyDictFacts.get_set_eq. by rewrite decide_True. }
  assert (store w1 role = set_env (store w role)) as Hst.
  { unfold w1. rewrite add_role_spec. simpl. by rewrite decide_True. }
  split.
  - by rewrite deliveries_publish_message, Hget.
  - by rewrite publish_message_store, Hget, Hst.
Qed.

End routing.

(** ** More on sequences of operations and on [run] *)
Section more_rounds.
Context `{!Collaborators, !EventLoop}.

Lemma sync_step_grows w w' : sync_step w w' → grows w w'.
Proof.
  unfold grows, get_roles. destruct 1.
  - rewrite add_role_spec. simpl. split; intros x Hin;
      apply PyDictFacts.elem_keys_set; by right.
  - simpl. split; [done|]. intros x Hin.
    apply PyDictFacts.elem_keys_set. by right.
  - by rewrite publish_message_env.
  - done.
Qed.

Lemma sync_steps_grow w w' : rtc sync_step w w' → grows w w'.
Proof.
  induction 1 as [w|w1 w2 w3 Hstep _ IH]; [done|].
  apply sync_step_grows in Hstep. unfold grows in *. naive_solver.
Qed.

Lemma step_grows w w' : through_methods → step w w' → grows w w'.
Proof.
  intros Hgather [w1 w2 Hsync|rs w1|k w1].
  - by apply sync_step_grows.
  - apply sync_steps_grow, add_roles_steps.
  - apply sync_steps_grow, rounds_steps, Hgather.
Qed.

(** X12. No operation removes anything: along every sequence of public
    operations, a profile that is registered stays registered and an object
    that is subscribed stays subscribed. *)
Theorem nothing_is_removed (w w' : World) :
  through_methods →
  rtc step w w' →
  (∀ name, name ∈ PyDict.keys (get_roles w) → name ∈ PyDict.keys (get_roles w'))
  ∧ (∀ obj, get_subscribed_tags obj w' = EmptyDict →
            get_subscribed_tags obj w = EmptyDict).
Proof.
  intros Hgather Hsteps.
  assert (grows w w') as [Hroles Hcons].
  { induction Hsteps as [w|w1 w2 w3 Hstep _ IH]; [done|].
    apply (step_grows _ _ Hgather) in Hstep. unfold grows in *. naive_solver. }
  split; [done|].
  intros obj. unfold get_subscribed_tags.
  destruct (PyDict.get obj (consumers (env w))) as [tags|] eqn:Hget; [|done].
  assert (obj ∈ PyDict.keys (consumers (env w'))) as Hin.
  { apply Hcons. by apply (PyDictFacts.elem_keys _ tags), PyDictFacts.get_Some_elem. }
  apply PyDictFacts.get_Some_key in Hin as [tags' ->]. done.
Qed.

Lemma elem_values_items {K V} (v : V) (d : PyDict.t K V) :
  v ∈ PyDict.values d → ∃ k, (k, v) ∈ PyDict.items d.
Proof.
  unfold PyDict.values, PyDict.items. intros ([k v'] & -> & Hin)%list_elem_of_fmap.
  by exists k.
Qed.

(** X13. In every world reached from a fresh environment, the registry and
    the roles agree: [get_role] of the profile of a registered role answers
    that role, no role is registered under two names, and every registered
    role has tags in the subscription table. *)
Theorem registry_round_trip (w : World) :
  through_methods →
  reachable w →
  NoDup (PyDict.values (get_roles w))
  ∧ (∀ r, r ∈ PyDict.values (get_roles w) →
          get_role (profile r) w = Some r
          ∧ ∃ tags, get_subscribed_tags r w = TagSet tags).
Proof.
  intros Hgather Hreach.
  destruct (reachable_tables_ok w Hgather Hreach) as [Hr Hc Hk Hs].
  unfold get_roles. split; [by apply registry_values_NoDup|].
  intros r Hin. split.
  - destruct (elem_values_items r _ Hin) as [p Hp].
    rewrite (Hk p r Hp). by apply PyDictFacts.elem_get.
  - apply Hs, PyDictFacts.get_Some_key in Hin as [tags Hget].
    exists tags. unfold get_subscribed_tags. by rewrite Hget.
Qed.

Lemma round_calls_raised w e :
  (gather (batch w) w).2 = Some e →
  calls (round w) = raising_round_calls (batch w).
Proof.
  unfold round, batch, raising_round_calls, await_gather, resume. py_unfold. simpl.
  rewrite spawn_loop_spec. simpl.
  by destruct (gather _ w) as [w' [e'|]].
Qed.

Lemma rounds_raising n j e w :
  j < n →
  (∀ i, i < j → round_completes (world_after i w)) →
  (gather (batch (world_after j w)) (world_after j w)).2 = Some e →
  result (rounds n w) = Raised e
  ∧ final (rounds n w) = world_after (S j) w
  ∧ calls (rounds n w) =
      mjoin ((λ i, round_calls (batch (world_after i w))
                     (is_idle (world_after (S i) w))) <$> seq 0 j)
      ++ raising_round_calls (batch (world_after j w)).
Proof.
  revert n w. induction j as [|j IH]; intros n w Hlt Hall Hraise.
  - destruct n as [|n]; [lia|]. simpl in Hraise.
    assert (result (round w) = Raised e) as Hres.
    { rewrite round_result. unfold batch in Hraise. by rewrite Hraise. }
    rewrite (rounds_S_raised _ _ e) by done. cbn [result final calls].
    split_and!; [done | done |]. by apply (round_calls_raised _ e).
  - destruct n as [|n]; [lia|].
    assert (round_completes w) as Hnone by (apply (Hall 0); lia).
    assert (result (round w) = Returned tt) as Hres.
    { rewrite round_result. unfold round_completes, batch in Hnone. by rewrite Hnone. }
    rewrite rounds_S_returned by done. cbn [result final calls].
    destruct (IH n (after_round w)) as (-> & -> & ->).
    { lia. }
    { intros i Hi. rewrite <- world_after_S. apply Hall. lia. }
    { by rewrite <- world_after_S. }
    split_and!; [done | by rewrite <- world_after_S |].
    rewrite round_calls_spec by done.
    rewrite <- cons_seq, fmap_cons, mjoin_cons, <- fmap_S_seq.
    rewrite <- list_fmap_compose, <- app_assoc. f_equal. f_equal; [|by rewrite world_after_S].
    f_equal. apply list_fmap_ext. intros _ i _. simpl.
    by rewrite <- !world_after_S.
Qed.

(** X14. [run k] with [k <= 0] does nothing: it returns at once, with no
    call and the world as it was. *)
Theorem run_nonpositive (k : Z) (w : World) :
  (k ≤ 0)%Z →
  run k w = mkOutcome (Returned tt) w [].
Proof.
  intros Hk. unfold run. by replace (Z.to_nat k) with 0 by lia.
Qed.

(** X15. Rounds when the registry changes: as long as no await raises,
    [run k] returns after [k] rounds; the batch of each round is the
    registry as it is when the round starts, so a role registered during a
    round is first run in the next one, and the idleness logged is that of
    the world the await ends in. *)
Theorem run_batches_follow_registry (k : Z) (w : World) :
  (∀ i, i < Z.to_nat k → round_completes (world_after i w)) →
  result (run k w) = Returned tt
  ∧ final (run k w) = world_after (Z.to_nat k) w
  ∧ calls (run k w) =
      mjoin ((λ i, round_calls (batch (world_after i w))
                     (is_idle (world_after (S i) w))) <$> seq 0 (Z.to_nat k)).
Proof. intros Hall. unfold run. by apply rounds_completing. Qed.

(** X16. The first await that raises ends [run]: the exception comes out of
    [run], the rounds before are complete, the round of the raise stops
    after the await, without the idleness log, and no later round starts. *)
Theorem run_stops_at_first_raise (k : Z) (j : nat) (e : Exn) (w : World) :
  (Z.of_nat j < k)%Z →
  (∀ i, i < j → round_completes (world_after i w)) →
  (gather (batch (world_after j w)) (world_after j w)).2 = Some e →
  result (run k w) = Raised e
  ∧ final (run k w) = world_after (S j) w
  ∧ calls (run k w) =
      mjoin ((λ i, round_calls (batch (world_after i w))
                     (is_idle (world_after (S i) w))) <$> seq 0 j)
      ++ raising_round_calls (batch (world_after j w)).
Proof.
  intros Hlt Hall Hraise. unfold run.
  apply rounds_raising; [lia | done | done].
Qed.

Lemma rounds_add n m w : rounds (n + m) w = (rounds n;; rounds m) w.
Proof.
  revert w. induction n as [|n IH]; intros w.
  - simpl. by rewrite ret_bind.
  - change (rounds (S n + m)) with (round;; rounds (n + m)).
    change (rounds (S n)) with (round;; rounds n).
    rewrite bind_assoc.
    destruct (result (round w)) as [[]|e] eqn:Hres.
    + rewrite !(bind_returned round _ w tt) by done. by rewrite IH.
    + by rewrite !(bind_raised round _ w e).
Qed.

(** X17. [run (a + b)] is [run a], then [run b]: the same rounds, the same
    final world, and the same exception if one comes out. *)
Theorem run_add (a b : Z) (w : World) :
  (0 ≤ a)%Z → (0 ≤ b)%Z →
  run (a + b) w = (run a;; run b) w.
Proof.
  intros Ha Hb. unfold run. rewrite Z2Nat.inj_add by done. apply rounds_add.
Qed.

End more_rounds.

(** ** The further facts on the concrete team *)
Section scenario_more.
#[local] Existing Instance Scenario.collab.
#[local] Existing Instance Scenario.loop.
Import Scenario.

Lemma X1_witness :
  (profile 2%positive ∉ profile <$> [4; 5]%positive)
  ∧ result (add_roles [1; 2; 4; 5]%positive fresh) = Returned tt
  ∧ calls (add_roles [1; 2; 4; 5]%positive fresh) =
      [CallSetEnv 1%positive; CallSetEnv 2%positive;
       CallSetEnv 4%positive; CallSetEnv 5%positive]
  ∧ get_role "Alice" (final (add_roles [1; 2; 4; 5]%positive fresh)) = Some 2%positive.
Proof.
  assert (profile 2%positive ∉ profile <$> [4; 5]%positive) as Hlast by compute_done.
  destruct (add_roles_registers_in_order fresh [1%positive] [4; 5]%positive
              2%positive Hlast) as (Hres & Hcalls & Hget & _).
  split_and!; [done | exact Hres | exact Hcalls | exact Hget].
Defined.

Lemma X3_witness :
  "Bob" ≠ profile 2%positive
  ∧ 4%positive ≠ 2%positive
  ∧ get_role "Bob" (final (add_role 2%positive team)) = Some 4%positive
  ∧ get_subscribed_tags 4%positive (final (add_role 2%positive team)) = TagSet {["b"]}.
Proof.
  assert ("Bob" ≠ profile 2%positive) as Hname by done.
  assert (4%positive ≠ 2%positive) as Hobj by done.
  destruct (add_role_frame team 2%positive) as (Hroles & Hsubs).
  split_and!; [done | done | |].
  - by rewrite (Hroles "Bob" Hname).
  - by rewrite (proj1 (Hsubs 4%positive Hobj)).
Defined.

Lemma X5_witness :
  profile 2%positive ∈ PyDict.keys (get_roles team)
  ∧ (profile 3%positive ∉ PyDict.keys (get_roles team))
  ∧ PyDict.keys (get_roles (final (add_role 2%positive team))) = ["Alice"; "Bob"; "Carol"]
  ∧ PyDict.keys (get_roles (final (add_role 3%positive team))) = ["Alice"; "Bob"; "Carol"; ""].
Proof.
  assert (profile 2%positive ∈ PyDict.keys (get_roles team)) as Hold by compute_done.
  assert (profile 3%positive ∉ PyDict.keys (get_roles team)) as Hnew by compute_done.
  split_and!; [done | done | |].
  - exact (proj1 (add_role_keeps_order team 2%positive) Hold).
  - exact (proj1 (proj2 (add_role_keeps_order team 3%positive) Hnew)).
Defined.

Lemma X6_witness :
  2%positive ≠ 4%positive
  ∧ get_subscribed_tags 4%positive (final (set_subscribed_tags 4%positive {["a"]} team))
    = TagSet {["a"]}
  ∧ get_subscribed_tags 2%positive (final (set_subscribed_tags 4%positive {["a"]} team))
    = TagSet {["b"]}.
Proof.
  assert (2%positive ≠ 4%positive) as Hne by done.
  destruct (set_subscribed_tags_frame team 4%positive {["a"]})
    as (_ & _ & _ & _ & _ & Hget & Hothers).
  split_and!; [done | exact Hget |].
  by rewrite (Hothers 2%positive Hne).
Defined.

Lemma X7_witness :
  PyDict.wf (consumers (env team))
  ∧ get_subscribed_tags 1%positive team = EmptyDict
  ∧ get_role "Bob" (final (publish_message hello team)) = Some 4%positive
  ∧ deliveries 1%positive (calls (publish_message hello team)) = [].
Proof.
  assert (PyDict.wf (consumers (env team))) as Hwf by compute_done.
  assert (get_subscribed_tags 1%positive team = EmptyDict) as Hnone by done.
  destruct (publish_message_keeps_tables team hello Hwf) as (_ & Hroles & _ & Hout).
  split_and!; [done | done | |].
  - by rewrite (Hroles "Bob").
  - exact (proj1 (Hout 1%positive Hnone)).
Defined.

Lemma X8_witness :
  put_targets (calls (publish_message (mkMsg "for c" {["c"]}) team)) = []
  ∧ put_targets (calls (publish_message hello team)) = [2; 4; 5]%positive
  ∧ last (calls (publish_message (mkMsg "for c" {["c"]}) team))
    = Some (LogWarning "Message no recipients: for c").
Proof.
  destruct (publish_message_call_order team (mkMsg "for c" {["c"]}))
    as (_ & Hnone & _ & _ & _ & Hlast).
  destruct (publish_message_call_order team hello) as (_ & Hall & _).
  split_and!; [exact Hnone | exact Hall | exact (Hlast Hnone)].
Defined.

Lemma X9_witness :
  get_roles (mkWorld (env superseded)
               (λ r, if decide (r = 1%positive) then work (store superseded r)
                     else store superseded r)) = get_roles superseded
  ∧ is_idle (mkWorld (env superseded)
               (λ r, if decide (r = 1%positive) then work (store superseded r)
                     else store superseded r)) = is_idle superseded.
Proof.
  split; [done|].
  apply is_idle_reads_registered_roles; [done|].
  intros r Hin. simpl in Hin. by apply list_elem_of_singleton in Hin as ->.
Defined.

Lemma X10_witness :
  PyDict.wf (consumers (env superseded))
  ∧ deliveries 1%positive (calls (publish_message (mkMsg "for a" {["a"]}) superseded))
    = [mkMsg "for a" {["a"]}]
  ∧ is_idle (final (publish_message (mkMsg "for a" {["a"]}) superseded))
    = is_idle superseded.
Proof.
  assert (PyDict.wf (consumers (env superseded))) as Hwf by compute_done.
  split_and!; [done | done |].
  apply (publish_message_elsewhere_keeps_idleness superseded _ Hwf).
  intros r tags Hin Hget. simpl in Hin. apply list_elem_of_singleton in Hin as ->.
  by injection Hget as <-.
Defined.

Lemma X11_witness :
  PyDict.wf (consumers (env team))
  ∧ deliveries 1%positive
      (calls (publish_message (mkMsg "for a" {["a"]}) (final (add_role 1%positive team))))
    = [mkMsg "for a" {["a"]}]
  ∧ deliveries 1%positive
      (calls (publish_message hello (final (add_role 1%positive team)))) = [].
Proof.
  assert (PyDict.wf (consumers (env team))) as Hwf by compute_done.
  split_and!; [done | |].
  - exact (proj1 (add_role_then_publish_message team 1%positive
                    (mkMsg "for a" {["a"]}) Hwf)).
  - exact (proj1 (add_role_then_publish_message team 1%positive hello Hwf)).
Defined.

Lemma X12_witness :
  through_methods
  ∧ rtc step superseded (final (run 2 (final (add_roles [4; 5]%positive superseded))))
  ∧ "Alice" ∈ PyDict.keys
      (get_roles (final (run 2 (final (add_roles [4; 5]%positive superseded))))).
Proof.
  assert (rtc step superseded
            (final (run 2 (final (add_roles [4; 5]%positive superseded))))) as Hsteps.
  { eapply rtc_l; [apply step_add_roles|]. apply rtc_once, step_run. }
  split_and!; [apply scenario_through_methods | done |].
  apply (proj1 (nothing_is_removed _ _ scenario_through_methods Hsteps)).
  compute_done.
Defined.

Lemma X13_witness :
  through_methods
  ∧ reachable superseded
  ∧ 2%positive ∈ PyDict.values (get_roles superseded)
  ∧ get_role "Alice" superseded = Some 2%positive.
Proof.
  assert (2%positive ∈ PyDict.values (get_roles superseded)) as Hin by compute_done.
  split_and!;
    [apply scenario_through_methods | apply scenario_reachable_superseded | done |].
  exact (proj1 (proj2 (registry_round_trip superseded scenario_through_methods
                         scenario_reachable_superseded) 2%positive Hin)).
Defined.

Lemma X14_witness :
  (-3 ≤ 0)%Z
  ∧ calls (run (-3) team) = []
  ∧ is_idle (final (run (-3) team)) = false.
Proof.
  assert (-3 ≤ 0)%Z as Hk by lia.
  split_and!; [done | |]; by rewrite (run_nonpositive (-3) team Hk).
Defined.

Lemma X17_witness :
  (0 ≤ 1)%Z
  ∧ (0 ≤ 2)%Z
  ∧ calls (run 3 team) = calls ((run 1;; run 2) team).
Proof.
  assert (0 ≤ 1)%Z as Ha by lia.
  assert (0 ≤ 2)%Z as Hb by lia.
  split_and!; [done | done |].
  by rewrite <- (run_add 1 2 team Ha Hb).
Defined.

End scenario_more.

Section scenario_recruiting.
#[local] Existing Instance Scenario.collab.
#[local] Existing Instance Scenario.recruiting_loop.
Import Scenario.

Lemma X15_witness :
  (∀ i, i < Z.to_nat 2 → round_completes (world_after i (final (add_role 2%positive fresh))))
  ∧ result (run 2 (final (add_role 2%positive fresh))) = Returned tt
  ∧ calls (run 2 (final (add_role 2%positive fresh))) =
      [CallRun 2%positive; AwaitGather [2%positive]; LogInfo "is idle: False";
       CallRun 2%positive; CallRun 4%positive;
       AwaitGather [2%positive; 4%positive]; LogInfo "is idle: False"].
Proof.
  assert (∀ i, i < Z.to_nat 2 →
               round_completes (world_after i (final (add_role 2%positive fresh))))
    as Hall by done.
  destruct (run_batches_follow_registry 2 (final (add_role 2%positive fresh)) Hall)
    as (Hres & _ & Hcalls).
  split_and!; [done | exact Hres | exact Hcalls].
Defined.

End scenario_recruiting.

Section scenario_tiring.
#[local] Existing Instance Scenario.collab.
#[local] Existing Instance Scenario.tiring_loop.
Import Scenario.

Lemma X16_witness :
  (Z.of_nat 1 < 3)%Z
  ∧ (∀ i, i < 1 → round_completes (world_after i team))
  ∧ (gather (batch (world_after 1 team)) (world_after 1 team)).2 = Some "tired"
  ∧ result (run 3 team) = Raised "tired"
  ∧ calls (run 3 team) =
      [CallRun 2%positive; CallRun 4%positive; CallRun 5%positive;
       AwaitGather [2%positive; 4%positive; 5%positive]; LogInfo "is idle: True";
       CallRun 2%positive; CallRun 4%positive; CallRun 5%positive;
       AwaitGather [2%positive; 4%positive; 5%positive]].
Proof.
  assert (Z.of_nat 1 < 3)%Z as Hlt by lia.
  assert (∀ i, i < 1 → round_completes (world_after i team)) as Hall.
  { intros i Hi. by replace i with 0 by lia. }
  assert ((gather (batch (world_after 1 team)) (world_after 1 team)).2 = Some "tired")
    as Hraise by done.
  destruct (run_stops_at_first_raise 3 1 "tired" team Hlt Hall Hraise)
    as (Hres & _ & Hcalls).
  split_and!; [done | done | done | exact Hres | exact Hcalls].
Defined.

Lemma tiring_registry_fixed i : roles (env (world_after i team)) = roles (env team).
Proof. induction i as [|i IH]; [done|]. exact IH. Qed.

(** C9 fails as stated: the registry never changes, yet the await of the
    second round raises, so [run 3] raises and [run()] has been called twice,
    not three times, on the registered role 4. *)
Lemma C9_counterexample :
  (1 ≤ 3)%Z
  ∧ (∀ i, roles (env (world_after i team)) = roles (env team))
  ∧ 4%positive ∈ PyDict.values (roles (env team))
  ∧ result (run 3 team) = Raised "tired"
  ∧ occurrences 4%positive (invocations (calls (run 3 team))) = 2
  ∧ Z.of_nat (occurrences 4%positive (invocations (calls (run 3 team)))) ≠ 3%Z.
Proof.
  split_and!; [lia | apply tiring_registry_fixed | compute_done | done | done | done].
Qed.

End scenario_tiring.
